(** * Air Quality Explorer: the AQI service ([server/aqiService.js])

    A shallow embedding of the caching-and-normalisation core of the
    server: the category classifier, the response normaliser, the
    in-memory [Map] cache with its TTL and capacity policy, and the
    asynchronous lookup [getCityAqi].

    Conventions of the embedding:
    - a JavaScript number is an IEEE-754 binary64 value ([float]);
    - a JavaScript string is the sequence of the bytes of its UTF-8
      encoding ([string]); case mapping and trimming are those of
      ECMAScript on the ASCII range, bytes above 127 are left alone;
    - [Date.now()] is an integer number of milliseconds ([Z]);
    - the module-level [cache] is passed explicitly, as the list of the
      entries of the [Map] in iteration order;
    - a call of [getCityAqi] runs alone: what other calls do to the
      cache while it awaits the network is not part of the model. *)

From Stdlib Require Import ZArith Floats String Ascii List Bool Lia DecimalString.
From stdpp Require Import gmap strings list.

Local Set Warnings "-register-all".
Local Open Scope string_scope.
Local Open Scope Z_scope.

(** ** The classifier *)

(** The object literal returned by every branch of [getAqiCategory]. *)
Record AqiCategory := {
  label : string;
  color : string;
  level : string;
  healthImplications : string;
}.

(** [getAqiCategory(aqi)] for the values its caller passes: [null]
    ([None]) or a number.  [aqi == null] holds of [null] only among those;
    [Number.isNaN] is [is_nan]; [Number(aqi)] is the identity on
    numbers; [<=] is the IEEE comparison, false as soon as one side is
    [NaN]. *)
Definition getAqiCategory (aqi : option float) : AqiCategory :=
  match aqi with
  | None =>
      {| label := "Unknown";
         color := "#9E9E9E";
         level := "unknown";
         healthImplications := "Air quality data is not available." |}
  | Some a =>
      if PrimFloat.is_nan a then
        {| label := "Unknown";
           color := "#9E9E9E";
           level := "unknown";
           healthImplications := "Air quality data is not available." |}
      else
        let value := a in
        if (value <=? 50)%float then
          {| label := "Good";
             color := "#009966";
             level := "good";
             healthImplications :=
               "Air quality is considered satisfactory, and air pollution poses little or no risk." |}
        else if (value <=? 100)%float then
          {| label := "Moderate";
             color := "#FFDE33";
             level := "moderate";
             healthImplications :=
               "Air quality is acceptable; however, for some pollutants there may be a moderate health concern for a very small number of people." |}
        else if (value <=? 150)%float then
          {| label := "Unhealthy for Sensitive Groups";
             color := "#FF9933";
             level := "usg";
             healthImplications :=
               "Members of sensitive groups may experience health effects. The general public is not likely to be affected." |}
        else if (value <=? 200)%float then
          {| label := "Unhealthy";
             color := "#CC0033";
             level := "unhealthy";
             healthImplications :=
               "Everyone may begin to experience health effects; members of sensitive groups may experience more serious health effects." |}
        else if (value <=? 300)%float then
          {| label := "Very Unhealthy";
             color := "#660099";
             level := "very-unhealthy";
             healthImplications :=
               "Health warnings of emergency conditions. The entire population is more likely to be affected." |}
        else
          {| label := "Hazardous";
             color := "#7E0023";
             level := "hazardous";
             healthImplications :=
               "Health alert: everyone may experience more serious health effects." |}
  end.

(** ** Strings *)

Definition is_upper (c : ascii) : bool :=
  let n := nat_of_ascii c in ((65 <=? n) && (n <=? 90))%nat.

Definition is_lower (c : ascii) : bool :=
  let n := nat_of_ascii c in ((97 <=? n) && (n <=? 122))%nat.

Definition lower_char (c : ascii) : ascii :=
  if is_upper c then ascii_of_nat (nat_of_ascii c + 32) else c.

Definition upper_char (c : ascii) : ascii :=
  if is_lower c then ascii_of_nat (nat_of_ascii c - 32) else c.

(** White space and line terminators of ECMAScript below 128: TAB, LF,
    VT, FF, CR and SP. *)
Definition is_whitespace (c : ascii) : bool :=
  let n := nat_of_ascii c in (((9 <=? n) && (n <=? 13)) || (n =? 32))%nat.

(** [s.toLowerCase()] and [s.toUpperCase()], exact on strings of ASCII
    characters: the letters A to Z change case, every other byte stays
    (the case pairs of the rest of Unicode are not part of the
    model). *)
Fixpoint toLowerCase (s : string) : string :=
  match s with
  | EmptyString => EmptyString
  | String c r => String (lower_char c) (toLowerCase r)
  end.

Fixpoint toUpperCase (s : string) : string :=
  match s with
  | EmptyString => EmptyString
  | String c r => String (upper_char c) (toUpperCase r)
  end.

Fixpoint trimStart (s : string) : string :=
  match s with
  | EmptyString => EmptyString
  | String c r => if is_whitespace c then trimStart r else s
  end.

Fixpoint trimEnd (s : string) : string :=
  match s with
  | EmptyString => EmptyString
  | String c r =>
      match trimEnd r with
      | EmptyString => if is_whitespace c then EmptyString
                       else String c EmptyString
      | r' => String c r'
      end
  end.

(** [s.trim()], exact on strings of ASCII characters (the white space
    of the rest of Unicode is not part of the model). *)
Definition trim (s : string) : string := trimEnd (trimStart s).

(** [const normalizeCityKey = (city) => city.trim().toLowerCase();] *)
Definition normalizeCityKey (city : string) : string :=
  toLowerCase (trim city).

(** *** Spelling variants of a city

    Letters are the letters A to Z and white space is TAB, LF, VT, FF,
    CR and SP here.  Two characters are the same letter when they are
    equal or one is the upper-case form of the other; two strings have
    the same letters when they do position by position (what is not
    one of these letters is the same in both); [padding] is any run of
    white space.  Two strings differ only by the case of these letters
    or by surrounding white space when they are paddings around two
    strings of the same letters. *)
Definition same_letter (c d : ascii) : Prop :=
  c = d \/ d = upper_char c \/ c = upper_char d.

Inductive same_letters : string -> string -> Prop :=
| same_letters_nil : same_letters EmptyString EmptyString
| same_letters_cons c d s t :
    same_letter c d -> same_letters s t ->
    same_letters (String c s) (String d t).

Fixpoint padding (s : string) : bool :=
  match s with
  | EmptyString => true
  | String c r => is_whitespace c && padding r
  end.

Inductive spelling_variant : string -> string -> Prop :=
| spelling_variant_intro l1 r1 l2 r2 s t :
    padding l1 = true -> padding r1 = true ->
    padding l2 = true -> padding r2 = true ->
    same_letters s t ->
    spelling_variant (String.append l1 (String.append s r1))
                     (String.append l2 (String.append t r2)).

(** *** Letter case beyond ASCII

    U+0131, the dotless i, is a lower-case letter whose upper-case form
    is the letter I: ['ı'.toUpperCase()] is ['I'], whose lower-case form
    is the dotted i.  Lower-casing leaves the dotless i itself alone. *)
Definition dotless_i : string := "ı".
Definition dotless_i_upper : string := "I".

(** *** Strings of ASCII characters

    No byte above 127.  On these strings the case maps and [trim] above
    are those of ECMAScript exactly. *)
Definition ascii_char (c : ascii) : bool := (nat_of_ascii c <? 128)%nat.

Fixpoint ascii_only (s : string) : bool :=
  match s with
  | EmptyString => true
  | String c r => ascii_char c && ascii_only r
  end.

(** ** Provider documents

    What [response.json()] yields.  The properties of an object are
    listed in enumeration order, one per key, as [JSON.parse] leaves
    them. *)
Inductive json : Type :=
| JNull
| JBool (b : bool)
| JNum (n : float)
| JStr (s : string)
| JArr (items : list json)
| JObj (props : list (string * json)).

(** A JavaScript value read out of a document: [None] is [undefined]. *)
Definition jsval := option json.

(** [ToBoolean]: [undefined], [null], [false], [0], [-0], [NaN] and the
    empty string are falsy, everything else is truthy. *)
Definition truthy (v : jsval) : bool :=
  match v with
  | None | Some JNull => false
  | Some (JBool b) => b
  | Some (JNum n) => negb (PrimFloat.eqb n 0 || PrimFloat.is_nan n)
  | Some (JStr s) => negb (String.eqb s "")
  | Some (JArr _) | Some (JObj _) => true
  end.

Fixpoint lookup_prop (p : string) (props : list (string * json)) : jsval :=
  match props with
  | [] => None
  | (k, v) :: rest => if String.eqb p k then Some v else lookup_prop p rest
  end.

(** [o.p] for a value [o] that is not [null], and a name [p] that no
    prototype defines and that is not an index or [length] (all of
    [status], [data], [aqi], [iaqi], [v], [city], [name], [geo], [url],
    [dominentpol], [time], [iso], [tz], [attributions] are such): the
    own property of an object, [undefined] on anything else. *)
Definition get (o : json) (p : string) : jsval :=
  match o with
  | JObj props => lookup_prop p props
  | _ => None
  end.

(** [o.p] where [o] may be [undefined] or a falsy primitive: used only
    behind an [o && ...] guard, where [o] is truthy. *)
Definition get_of (o : jsval) (p : string) : jsval :=
  match o with
  | Some o => get o p
  | None => None
  end.

(** [x || null]. *)
Definition or_null (x : jsval) : json :=
  match x with
  | Some v => if truthy x then v else JNull
  | None => JNull
  end.

Definition index_key (i : nat) : string :=
  NilZero.string_of_uint (Nat.to_uint i).

Fixpoint chars_from (i : nat) (s : string) : list (string * json) :=
  match s with
  | EmptyString => []
  | String c r => (index_key i, JStr (String c EmptyString)) :: chars_from (S i) r
  end.

(** [Object.entries(o)] for a truthy [o]: the own enumerable properties
    of an object, the indexed elements of an array, the characters of a
    string, nothing for a number or a boolean. *)
Definition Object_entries (o : json) : list (string * json) :=
  match o with
  | JObj props => props
  | JArr items => imap (fun i x => (index_key i, x)) items
  | JStr s => chars_from 0 s
  | _ => []
  end.

(** ** The normalised record *)

Module Measurement.
Record t := { value : option float; label : string; unit : string }.
End Measurement.

Module City.
Record t := { name : json; geo : json; url : json }.
End City.

(** [{ value: aqi, ...category }]: the value and the four properties of
    the category. *)
Module Aqi.
Record t := { value : option float; category : AqiCategory }.
End Aqi.

Module Time.
Record t := { iso : json; timezone : json; raw : json }.
End Time.

(** [cache] is absent from the record that is stored, and present in
    every answer of [getCityAqi]. *)
Module CacheInfo.
Record t := { hit : bool; ttlMs : Z }.
End CacheInfo.

Module Meta.
Record t := { provider : string; apiDocs : string; cache : option CacheInfo.t }.
End Meta.

Record AqiRecord := {
  source : string;
  query : string;
  city : City.t;
  aqi : Aqi.t;
  dominantPollutant : json;
  measurements : gmap string Measurement.t;
  time : Time.t;
  attribution : json;
  meta : Meta.t;
}.

(** The [switch (pollutantName)] of the normaliser. *)
Definition pollutantLabel (pollutantName : string) : string :=
  if String.eqb pollutantName "pm25" then "PM2.5 (fine particulate matter)"
  else if String.eqb pollutantName "pm10" then "PM10 (coarse particulate matter)"
  else if String.eqb pollutantName "o3" then "Ozone (O₃)"
  else if String.eqb pollutantName "no2" then "Nitrogen Dioxide (NO₂)"
  else if String.eqb pollutantName "so2" then "Sulfur Dioxide (SO₂)"
  else if String.eqb pollutantName "co" then "Carbon Monoxide (CO)"
  else toUpperCase pollutantName.

(** [measurements[k] = m] on an object created by [{}]: an own property
    is added or replaced, except for the key [__proto__], which the
    setter of [Object.prototype] takes as a change of prototype and
    which adds no property. *)
Definition set_property (k : string) (m : Measurement.t)
    (o : gmap string Measurement.t) : gmap string Measurement.t :=
  if String.eqb k "__proto__" then o else <[k := m]> o.

(** [val && typeof val.v === "number" ? val.v : null] *)
Definition reading (val : json) : option float :=
  if truthy (Some val) then
    match get val "v" with
    | Some (JNum v) => Some v
    | _ => None
    end
  else None.

(** One turn of the loop over [Object.entries(d.iaqi)]. *)
Definition add_measurement (measurements : gmap string Measurement.t)
    (entry : string * json) : gmap string Measurement.t :=
  let '(key, val) := entry in
  match reading val with
  | None => measurements              (* continue *)
  | Some value =>
      let pollutantName := toLowerCase key in
      let label := pollutantLabel pollutantName in
      set_property pollutantName
        {| Measurement.value := Some value;
           Measurement.label := label;
           Measurement.unit := "µg/m³" |}
        measurements
  end.

(** [x && x.p ? x.p : fallback] *)
Definition sub_or (x : jsval) (p : string) (fallback : json) : json :=
  if truthy x then
    match get_of x p with
    | Some v => if truthy (Some v) then v else fallback
    | None => fallback
    end
  else fallback.

(** [v === s] for a string [s]. *)
Definition is_string (v : jsval) (s : string) : bool :=
  match v with
  | Some (JStr s') => String.eqb s' s
  | _ => false
  end.

(** [normalizeAqicnResponse(raw, cityQuery)]; [None] is [null]. *)
Definition normalizeAqicnResponse (raw : json) (cityQuery : string)
    : option AqiRecord :=
  if negb (truthy (Some raw))
     || negb (is_string (get raw "status") "ok")
     || negb (truthy (get raw "data"))
  then None
  else
    match get raw "data" with
    | None => None
    | Some d =>
        let aqi_ := match get d "aqi" with
                    | Some (JNum n) => Some n
                    | _ => None
                    end in
        let category := getAqiCategory aqi_ in
        let measurements_ :=
          if truthy (get d "iaqi") then
            match get d "iaqi" with
            | Some iaqi => fold_left add_measurement (Object_entries iaqi) ∅
            | None => ∅
            end
          else ∅ in
        Some {|
          source := "aqicn.org";
          query := cityQuery;
          city := {| City.name := sub_or (get d "city") "name" (JStr cityQuery);
                     City.geo := sub_or (get d "city") "geo" JNull;
                     City.url := sub_or (get d "city") "url" JNull |};
          aqi := {| Aqi.value := aqi_; Aqi.category := category |};
          dominantPollutant := or_null (get d "dominentpol");
          measurements := measurements_;
          time := {| Time.iso := sub_or (get d "time") "iso" JNull;
                     Time.timezone := sub_or (get d "time") "tz" JNull;
                     Time.raw := or_null (get d "time") |};
          attribution := match get d "attributions" with
                         | Some v => if truthy (Some v) then v else JArr []
                         | None => JArr []
                         end;
          meta := {| Meta.provider := "World Air Quality Index (WAQI)";
                     Meta.apiDocs := "https://aqicn.org/api/";
                     Meta.cache := None |};
        |}
    end.

(** ** The cache

    A [Map] is the list of its entries in insertion order. *)

Definition CACHE_TTL_MS : Z := 5 * 60 * 1000.
Definition MAX_CACHE_ENTRIES : nat := 100.

(** [{ data, expiresAt, lastAccessed }] *)
Record CacheEntry := {
  data : AqiRecord;
  expiresAt : Z;
  lastAccessed : Z;
}.

Section JsMap.
Context {V : Type}.

(** [m.get(k)]; [None] is [undefined]. *)
Fixpoint Map_get (m : list (string * V)) (k : string) : option V :=
  match m with
  | [] => None
  | (k', v) :: rest => if String.eqb k k' then Some v else Map_get rest k
  end.

(** [m.delete(k)] *)
Fixpoint Map_delete (m : list (string * V)) (k : string) : list (string * V) :=
  match m with
  | [] => []
  | (k', v) :: rest =>
      if String.eqb k k' then rest else (k', v) :: Map_delete rest k
  end.

(** [m.set(k, v)]: the value of a key that is present is replaced where
    it stands, a new key goes to the end. *)
Fixpoint Map_set (m : list (string * V)) (k : string) (v : V)
    : list (string * V) :=
  match m with
  | [] => [(k, v)]
  | (k', v') :: rest =>
      if String.eqb k k' then (k', v) :: rest else (k', v') :: Map_set rest k v
  end.

(** [m.size] *)
Definition Map_size (m : list (string * V)) : nat := length m.

(** [m.keys().next().value]; [None] is [undefined]. *)
Definition Map_first_key (m : list (string * V)) : option string :=
  match m with
  | [] => None
  | (k, _) :: _ => Some k
  end.

(** No key twice: what every [Map] satisfies. *)
Definition Map_wf (m : list (string * V)) : Prop := NoDup (map fst m).

End JsMap.

Abbreviation Cache := (list (string * CacheEntry)).

(** [evictIfNeeded()] *)
Definition evictIfNeeded (cache : Cache) : Cache :=
  if (Map_size cache <=? MAX_CACHE_ENTRIES)%nat then cache
  else
    (* Map preserves insertion order; first entry is oldest. *)
    match Map_first_key cache with
    | Some oldestKey =>
        if negb (String.eqb oldestKey "")    (* if (oldestKey) *)
        then Map_delete cache oldestKey
        else cache
    | None => cache
    end.

(** [getFromCache(city)], with [now] the value of [Date.now()]: the
    value returned ([None] is [null]) and the cache afterwards. *)
Definition getFromCache (now : Z) (city : string) (cache : Cache)
    : option AqiRecord * Cache :=
  let key := normalizeCityKey city in
  match Map_get cache key with
  | None => (None, cache)
  | Some entry =>
      if expiresAt entry <=? now then (None, Map_delete cache key)
      else
        (* Touch for LRU-like behavior: re-insert *)
        (Some (data entry),
         Map_set (Map_delete cache key) key
           {| data := data entry;
              expiresAt := expiresAt entry;
              lastAccessed := now |})
  end.

(** [setInCache(city, data)], with [now] the value of [Date.now()]. *)
Definition setInCache (now : Z) (city : string) (data : AqiRecord)
    (cache : Cache) : Cache :=
  let key := normalizeCityKey city in
  let entry := {| data := data;
                  expiresAt := now + CACHE_TTL_MS;
                  lastAccessed := now |} in
  evictIfNeeded (Map_set cache key entry).

(** ** The lookup

    [getCityAqi] is an [async] function: it reads the clock, reads and
    writes the cache, reads the configuration, issues at most one
    request and either fulfils its promise or rejects it. *)

(** What a promise of [getCityAqi] can be rejected with. *)
Inductive Error :=
| MissingToken
    (* new Error("Missing AQICN_API_TOKEN environment variable. ...") *)
| RequestFailed (status : Z) (statusText : string)
    (* new Error(`AQICN API request failed with status ...`) *)
| FetchError
    (* fetch() rejected: no connection, or the timeout of 8000 ms *)
| InvalidJson
    (* response.json() rejected *)
| TypeError (reading : string).
    (* Cannot read properties of null (reading '...') *)

(** The part of a [Response] of node-fetch that the service looks at;
    [body] is what [response.json()] parses, [None] when it is not
    JSON. *)
Record Response := {
  status : Z;
  statusText : string;
  body : option json;
}.

(** [response.ok] *)
Definition ok (response : Response) : bool :=
  (200 <=? status response) && (status response <? 300).

(** What the network answers to one request: the time it takes, and a
    response unless the request fails. *)
Record Reply := {
  latency : Z;
  response : option Response;
}.

(** The surroundings of a call: [process.env.AQICN_API_TOKEN] ([None]
    is [undefined]) and the network. *)
Record Env := {
  AQICN_API_TOKEN : option string;
  fetch : string -> Reply;
}.

(** The state a call runs in: the module's [cache], the clock read by
    [Date.now()], and the URLs requested so far. *)
Record World := {
  cache : Cache;
  clock : Z;
  requests : list string;
}.

Inductive Result (A : Type) :=
| Return (a : A)
| Throw (e : Error).
Arguments Return {A} a.
Arguments Throw {A} e.

Definition M (A : Type) : Type := World -> Result A * World.

Definition ret {A} (a : A) : M A := fun w => (Return a, w).

Definition throw {A} (e : Error) : M A := fun w => (Throw e, w).

Definition bind {A B} (m : M A) (k : A -> M B) : M B :=
  fun w =>
    match m w with
    | (Return a, w') => k a w'
    | (Throw e, w') => (Throw e, w')
    end.

Notation "'let!' x ':=' m 'in' k" := (bind m (fun x => k))
  (at level 10, x name, m at level 100, k at level 200).

(** [Date.now()] *)
Definition Date_now : M Z := fun w => (Return (clock w), w).

(** A synchronous function of the cache, run on the module's [cache]. *)
Definition on_cache {A} (f : Cache -> A * Cache) : M A :=
  fun w =>
    let '(a, c) := f (cache w) in
    (Return a, {| cache := c; clock := clock w; requests := requests w |}).

(** [await fetch(url, ...)]: the request is recorded, time passes, and
    the promise is fulfilled with the response or rejected. *)
Definition await_fetch (env : Env) (url : string) : M Response :=
  fun w =>
    let reply := fetch env url in
    let w' := {| cache := cache w;
                 clock := clock w + latency reply;
                 requests := requests w ++ [url] |} in
    match response reply with
    | Some r => (Return r, w')
    | None => (Throw FetchError, w')
    end.

(** [await response.json()] *)
Definition await_json (r : Response) : M json :=
  match body r with
  | Some raw => ret raw
  | None => throw InvalidJson
  end.

(** [o.p] where nothing guards [o]: a [TypeError] on [null]. *)
Definition property (o : json) (p : string) : M jsval :=
  match o with
  | JNull => throw (TypeError p)
  | _ => ret (get o p)
  end.

Definition is_digit (c : ascii) : bool :=
  let n := nat_of_ascii c in ((48 <=? n) && (n <=? 57))%nat.

(** The characters [encodeURIComponent] leaves alone. *)
Definition unreserved (c : ascii) : bool :=
  is_upper c || is_lower c || is_digit c
  || existsb (Ascii.eqb c)
       ["-"; "_"; "."; "!"; "~"; "*"; "'"; "("; ")"]%char.

Definition hex_digit (n : nat) : ascii :=
  (if n <? 10 then ascii_of_nat (48 + n) else ascii_of_nat (55 + n))%nat.

(** [encodeURIComponent(s)]: every other byte of the UTF-8 encoding
    becomes [%XX]. *)
Fixpoint encodeURIComponent (s : string) : string :=
  match s with
  | EmptyString => EmptyString
  | String c r =>
      if unreserved c then String c (encodeURIComponent r)
      else String "%" (String (hex_digit (nat_of_ascii c / 16))
             (String (hex_digit (nat_of_ascii c mod 16))
                (encodeURIComponent r)))
  end.

Definition AQICN_BASE_URL : string := "https://api.waqi.info".

(** [{ ...r, meta: { ...r.meta, cache: { hit, ttlMs: CACHE_TTL_MS } } }] *)
Definition with_cache_info (hit : bool) (r : AqiRecord) : AqiRecord :=
  {| source := source r;
     query := query r;
     city := city r;
     aqi := aqi r;
     dominantPollutant := dominantPollutant r;
     measurements := measurements r;
     time := time r;
     attribution := attribution r;
     meta := {| Meta.provider := Meta.provider (meta r);
                Meta.apiDocs := Meta.apiDocs (meta r);
                Meta.cache := Some {| CacheInfo.hit := hit;
                                      CacheInfo.ttlMs := CACHE_TTL_MS |} |} |}.

(** The URL of the request for [city]. *)
Definition feed_url (city token : string) : string :=
  AQICN_BASE_URL +:+ "/feed/" +:+ encodeURIComponent city
  +:+ "/?token=" +:+ encodeURIComponent token.

(** [getFromCache] and [setInCache] on the module's [cache], each with
    its own reading of the clock. *)
Definition getFromCache_now (city : string) : M (option AqiRecord) :=
  let! now := Date_now in
  on_cache (getFromCache now city).

Definition setInCache_now (city : string) (data : AqiRecord) : M unit :=
  let! now := Date_now in
  on_cache (fun c => (tt, setInCache now city data c)).

(** [getCityAqi(city)]: [Return None] is a promise fulfilled with
    [null], [Throw e] a promise rejected with [e]. *)
Definition getCityAqi (env : Env) (city : string) : M (option AqiRecord) :=
  let! cached := getFromCache_now city in
  match cached with
  | Some cached => ret (Some (with_cache_info true cached))
  | None =>
      let token := AQICN_API_TOKEN env in
      match token with
      | None => throw MissingToken
      | Some token =>
          if String.eqb token "" then throw MissingToken
          else
            let url := feed_url city token in
            let! response := await_fetch env url in
            if negb (ok response) then
              throw (RequestFailed (status response) (statusText response))
            else
              let! raw := await_json response in
              let! raw_status := property raw "status" in
              if negb (is_string raw_status "ok") then
                (* Cache negative responses for a shorter duration could
                   be a future optimization. *)
                ret None
              else
                let normalized := normalizeAqicnResponse raw city in
                let! _ :=
                  match normalized with
                  | Some normalized => setInCache_now city normalized
                  | None => ret tt
                  end in
                match normalized with
                | Some normalized =>
                    ret (Some (with_cache_info false normalized))
                | None => throw (TypeError "meta")   (* normalized.meta *)
                end
      end
  end.

(** A run of lookups, each with the time it is made at and the city it
    asks for; what is left of the cache. *)
Definition lookups (ops : list (Z * string)) (cache : Cache) : Cache :=
  fold_left (fun c op => snd (getFromCache (fst op) (snd op) c)) ops cache.

(** ** Sample data

    The smallest document the normaliser accepts, and the record it
    makes of it. *)
Definition bare_document : json :=
  JObj [("status", JStr "ok"); ("data", JObj [])].

Definition bare_record (cityQuery : string) : AqiRecord :=
  {| source := "aqicn.org";
     query := cityQuery;
     city := {| City.name := JStr cityQuery;
                City.geo := JNull;
                City.url := JNull |};
     aqi := {| Aqi.value := None; Aqi.category := getAqiCategory None |};
     dominantPollutant := JNull;
     measurements := ∅;
     time := {| Time.iso := JNull; Time.timezone := JNull; Time.raw := JNull |};
     attribution := JArr [];
     meta := {| Meta.provider := "World Air Quality Index (WAQI)";
                Meta.apiDocs := "https://aqicn.org/api/";
                Meta.cache := None |} |}.

(** A provider that answers every request with the same document. *)
Definition provider_of (token : option string) (raw : json) : Env :=
  {| AQICN_API_TOKEN := token;
     fetch := fun _ =>
       {| latency := 120;
          response := Some {| status := 200; statusText := "OK";
                              body := Some raw |} |} |}.

(** A blank city followed by a hundred others. *)
Definition blank_first_cities : list string :=
  "" :: map index_key (seq 0 100).

(** The world once [getCityAqi] has looked the city up in the cache,
    and the world once its request has been answered. *)
Definition looked_up (city : string) (w : World) : World :=
  {| cache := snd (getFromCache (clock w) city (cache w));
     clock := clock w;
     requests := requests w |}.

Definition answered (env : Env) (city token : string) (w : World) : World :=
  {| cache := snd (getFromCache (clock w) city (cache w));
     clock := clock w + latency (fetch env (feed_url city token));
     requests := requests w ++ [feed_url city token] |}.

(** Everything in a record but its [meta]. *)
Definition payload (r : AqiRecord) :=
  (source r, query r, city r, aqi r, dominantPollutant r, measurements r,
   time r, attribution r).

(** ** Severity

    The rank of a category on the scale of the classifier, read off its
    [level]; the category of missing data has none. *)
Definition severity (c : AqiCategory) : option nat :=
  if String.eqb (level c) "good" then Some 0%nat
  else if String.eqb (level c) "moderate" then Some 1%nat
  else if String.eqb (level c) "usg" then Some 2%nat
  else if String.eqb (level c) "unhealthy" then Some 3%nat
  else if String.eqb (level c) "very-unhealthy" then Some 4%nat
  else if String.eqb (level c) "hazardous" then Some 5%nat
  else None.

(** ** The reading of a pollutant

    The reading of the last pair of [entries] whose key, lower-cased, is
    [code] and whose value has a numeric [v]; and the measurement made
    of a reading. *)
Fixpoint last_reading (entries : list (string * json)) (code : string)
    : option float :=
  match entries with
  | [] => None
  | (key, val) :: rest =>
      match last_reading rest code with
      | Some v => Some v
      | None => if String.eqb (toLowerCase key) code then reading val else None
      end
  end.

Definition measurement_of (code : string) (v : float) : Measurement.t :=
  {| Measurement.value := Some v;
     Measurement.label := pollutantLabel code;
     Measurement.unit := "µg/m³" |}.

(** ** The cache in order

    What the cache is expected to be between two calls: a [Map] of at
    most [MAX_CACHE_ENTRIES] entries, none under the empty key. *)
Definition cache_ok (cache : Cache) : Prop :=
  Map_wf cache
  /\ (Map_size cache <= MAX_CACHE_ENTRIES)%nat
  /\ Map_get cache "" = None.

(** The world once [getCityAqi] has stored the record [n] made of the
    answer to its request. *)
Definition stored (env : Env) (city token : string) (n : AqiRecord)
    (w : World) : World :=
  {| cache := setInCache (clock (answered env city token w)) city n
                (cache (answered env city token w));
     clock := clock (answered env city token w);
     requests := requests (answered env city token w) |}.

(** ** The route [GET /api/aqi] ([server/index.js])

    What the query parser of Express makes of a parameter: a string,
    an array when the parameter is repeated or indexed, an object when
    it has sub-keys. *)
Inductive QueryValue : Type :=
| QStr (s : string)
| QArr (items : list QueryValue)
| QObj (props : list (string * QueryValue)).

(** [v.toString()]: a string is itself, an array is its elements
    joined by commas, a plain object is "[object Object]".  (The query
    parser lets a query give an object a key [toString] of its own;
    the call then throws, which is not part of the model.) *)
Fixpoint query_toString (v : QueryValue) : string :=
  match v with
  | QStr s => s
  | QArr items => String.concat "," (map query_toString items)
  | QObj _ => "[object Object]"
  end.

(** [(req.query.city || "").toString().trim()]; [None] is a parameter
    that is not there. *)
Definition query_city (v : option QueryValue) : string :=
  trim (match v with
        | None | Some (QStr "") => ""
        | Some v => query_toString v
        end).

(** The parameters whose text the handler is sure to compute as
    [query_city] does: a parameter that is missing, a string or an array
    of strings, of ASCII characters. *)
Definition plain_param (param : option QueryValue) : bool :=
  match param with
  | None => true
  | Some (QStr s) => ascii_only s
  | Some (QArr items) =>
      forallb (fun v => match v with
                        | QStr s => ascii_only s
                        | _ => false
                        end) items
  | Some (QObj _) => false
  end.

(** What the handler sends: a status and a JSON body, which is an
    object with an [error] or the record. *)
Inductive Body :=
| ErrorBody (error : string)
| RecordBody (record : AqiRecord).

Record HttpReply := {
  statusCode : Z;
  jsonBody : Body;
}.

(** What a request leaves behind: the reply, and the error passed to
    [console.error], if any. *)
Record Handled := {
  reply : HttpReply;
  logged : option Error;
}.

(** The handler of [app.get("/api/aqi", ...)], given [req.query.city]. *)
Definition api_aqi (env : Env) (param : option QueryValue) (w : World)
    : Handled * World :=
  let city := query_city param in
  if String.eqb city "" then
    ({| reply := {| statusCode := 400;
                    jsonBody :=
                      ErrorBody "Missing required query parameter 'city'." |};
        logged := None |}, w)
  else
    match getCityAqi env city w with
    | (Return None, w') =>
        ({| reply := {| statusCode := 404;
                        jsonBody :=
                          ErrorBody ("No AQI data found for city '"
                                     +:+ city +:+ "'.") |};
            logged := None |}, w')
    | (Return (Some record), w') =>
        ({| reply := {| statusCode := 200; jsonBody := RecordBody record |};
            logged := None |}, w')
    | (Throw err, w') =>
        ({| reply := {| statusCode := 502;
                        jsonBody :=
                          ErrorBody
                            "Failed to fetch AQI data from upstream provider." |};
            logged := Some err |}, w')
    end.

(** The requests of a run of the server, each with the configuration
    and the network of its time; the world they leave. *)
Definition serve (reqs : list (Env * option QueryValue)) (w : World) : World :=
  fold_left (fun w req => snd (api_aqi (fst req) (snd req) w)) reqs w.

(** ** Reading an escaped string back

    The value of a hexadecimal digit, and the inverse of
    [encodeURIComponent] on what it produces. *)
Definition hex_value (c : ascii) : nat :=
  (if is_digit c then nat_of_ascii c - 48 else nat_of_ascii c - 55)%nat.

Fixpoint unescape (s : string) : string :=
  match s with
  | EmptyString => EmptyString
  | String c r =>
      if Ascii.eqb c "%" then
        match r with
        | String h (String l r') =>
            String (ascii_of_nat (16 * hex_value h + hex_value l))
                   (unescape r')
        | _ => s
        end
      else String c (unescape r)
  end.

(** Whether a character occurs in a string. *)
Fixpoint has_char (c : ascii) (s : string) : bool :=
  match s with
  | EmptyString => false
  | String d r => Ascii.eqb c d || has_char c r
  end.

(** ** Sound entries

    What every entry of the cache is expected to satisfy: its key is a
    canonical key, it was last accessed before it expires, and its
    record carries no [meta.cache]. *)
Definition entry_sound (entry : string * CacheEntry) : Prop :=
  normalizeCityKey (fst entry) = fst entry
  /\ lastAccessed (snd entry) < expiresAt (snd entry)
  /\ Meta.cache (meta (data (snd entry))) = None.

(** A cache of [n] entries, under the keys "0", "1", ... *)
Definition numbered_cache (n : nat) : Cache :=
  map (fun i => (index_key i,
                 {| data := bare_record (index_key i);
                    expiresAt := 300000; lastAccessed := 0 |}))
      (seq 0 n).

(** ** Runs of stores

    A store is a call [setInCache(city, data)] made at some time.
    [store_all] makes the stores of a list one after the other;
    [store_keys] are the keys they store under, in the order of the
    calls. *)
Definition store_all (stores : list (Z * string * AqiRecord)) (cache : Cache)
    : Cache :=
  fold_left (fun c s => setInCache (fst (fst s)) (snd (fst s)) (snd s) c)
            stores cache.

Definition store_keys (stores : list (Z * string * AqiRecord)) : list string :=
  map (fun s => normalizeCityKey (snd (fst s))) stores.

(** A hundred and one stores, for the cities "0", "1", ..., "100". *)
Definition numbered_stores : list (Z * string * AqiRecord) :=
  map (fun i => (Z.of_nat i, index_key i, bare_record (index_key i)))
      (seq 0 101).

(** * Properties *)

(** ** IEEE comparisons *)

Section FloatOrder.

Lemma SFcompare_antisym (a b : spec_float) :
  SFcompare b a = option_map CompOpp (SFcompare a b).
Proof.
  destruct a as [sa|sa| |sa ma ea], b as [sb|sb| |sb mb eb]; simpl;
    try destruct sa; try destruct sb; simpl; try reflexivity.
  all: rewrite (Z.compare_antisym eb ea); destruct (eb ?= ea)%Z; simpl;
    try reflexivity.
  all: change (Pos.compare_cont Eq ma mb) with (Pos.compare ma mb);
    change (Pos.compare_cont Eq mb ma) with (Pos.compare mb ma);
    rewrite (Pos.compare_antisym mb ma);
    destruct (mb ?= ma)%positive; reflexivity.
Qed.

(** [x < y] excludes [y <= x]. *)
Lemma ltb_not_leb (x y : float) :
  (x <? y)%float = true -> (y <=? x)%float = false.
Proof.
  rewrite FloatAxioms.ltb_spec, FloatAxioms.leb_spec. unfold SFltb, SFleb.
  rewrite (SFcompare_antisym (Prim2SF x) (Prim2SF y)).
  destruct (SFcompare (Prim2SF x) (Prim2SF y)) as [[]|]; simpl; congruence.
Qed.

(** A number that compares [<=] to anything is not [NaN]. *)
Lemma leb_not_nan (x y : float) :
  (x <=? y)%float = true -> PrimFloat.is_nan x = false.
Proof.
  unfold PrimFloat.is_nan. rewrite FloatAxioms.leb_spec, FloatAxioms.eqb_spec. unfold SFleb, SFeqb.
  destruct (Prim2SF x) as [sx|sx| |sx mx ex]; simpl;
    try destruct sx; simpl; try reflexivity; try discriminate.
  all: rewrite Z.compare_refl;
    change (Pos.compare_cont Eq mx mx) with (Pos.compare mx mx);
    rewrite Pos.compare_refl; reflexivity.
Qed.

Lemma ltb_not_nan_r (x y : float) :
  (x <? y)%float = true -> PrimFloat.is_nan y = false.
Proof.
  unfold PrimFloat.is_nan. rewrite FloatAxioms.ltb_spec, FloatAxioms.eqb_spec. unfold SFltb, SFeqb.
  destruct (Prim2SF x) as [sx|sx| |sx mx ex],
           (Prim2SF y) as [sy|sy| |sy my ey]; simpl;
    try destruct sx; try destruct sy; simpl;
    try reflexivity; try discriminate.
  all: rewrite Z.compare_refl;
    change (Pos.compare_cont Eq my my) with (Pos.compare my my);
    rewrite Pos.compare_refl; reflexivity.
Qed.

Lemma SFleb_trans (a b c : spec_float) :
  SFleb a b = true -> SFleb b c = true -> SFleb a c = true.
Proof.
  unfold SFleb.
  destruct a as [sa|sa| |sa ma ea], b as [sb|sb| |sb mb eb],
           c as [sc|sc| |sc mc ec]; simpl;
    try destruct sa; try destruct sb; try destruct sc; simpl;
    try reflexivity; try discriminate.
  all: change (Pos.compare_cont Eq ma mb) with (Pos.compare ma mb);
    change (Pos.compare_cont Eq mb mc) with (Pos.compare mb mc);
    change (Pos.compare_cont Eq ma mc) with (Pos.compare ma mc).
  all: destruct (Z.compare_spec ea eb), (Z.compare_spec eb ec),
      (Z.compare_spec ea ec); try lia; simpl;
    try reflexivity; try discriminate.
  all: destruct (Pos.compare_spec ma mb), (Pos.compare_spec mb mc),
      (Pos.compare_spec ma mc); try lia; simpl;
    try reflexivity; try discriminate.
Qed.

Lemma leb_trans (x y z : float) :
  (x <=? y)%float = true -> (y <=? z)%float = true ->
  (x <=? z)%float = true.
Proof. rewrite !FloatAxioms.leb_spec. apply SFleb_trans. Qed.

(** With [lo <= hi < v], the test [v <= lo] fails. *)
Lemma above_not_leb (lo hi v : float) :
  (lo <=? hi)%float = true -> (hi <? v)%float = true ->
  (v <=? lo)%float = false.
Proof.
  intros Hlo Hhi. destruct (v <=? lo)%float eqn:E; [|reflexivity].
  pose proof (leb_trans _ _ _ E Hlo) as Hv.
  rewrite (ltb_not_leb _ _ Hhi) in Hv. discriminate.
Qed.

End FloatOrder.

(** ** The classifier's buckets *)

(** C2. [getAqiCategory] answers by inclusive upper bounds: [null] and
    [NaN] are "Unknown"; a value [<= 50] is "Good", one in (50, 100] is
    "Moderate", one in (100, 150] is "Unhealthy for Sensitive Groups",
    one in (150, 200] is "Unhealthy", one in (200, 300] is "Very
    Unhealthy", one above 300 is "Hazardous"; and the boundary values
    50, 100, 150, 200, 300 and 301 fall where the bounds say. *)
Theorem getAqiCategory_buckets :
  label (getAqiCategory None) = "Unknown" /\
  (forall v : float,
     (PrimFloat.is_nan v = true ->
        label (getAqiCategory (Some v)) = "Unknown") /\
     ((v <=? 50)%float = true ->
        label (getAqiCategory (Some v)) = "Good") /\
     ((50 <? v)%float = true -> (v <=? 100)%float = true ->
        label (getAqiCategory (Some v)) = "Moderate") /\
     ((100 <? v)%float = true -> (v <=? 150)%float = true ->
        label (getAqiCategory (Some v)) = "Unhealthy for Sensitive Groups") /\
     ((150 <? v)%float = true -> (v <=? 200)%float = true ->
        label (getAqiCategory (Some v)) = "Unhealthy") /\
     ((200 <? v)%float = true -> (v <=? 300)%float = true ->
        label (getAqiCategory (Some v)) = "Very Unhealthy") /\
     ((300 <? v)%float = true ->
        label (getAqiCategory (Some v)) = "Hazardous")) /\
  label (getAqiCategory (Some 50%float)) = "Good" /\
  label (getAqiCategory (Some 100%float)) = "Moderate" /\
  label (getAqiCategory (Some 150%float)) = "Unhealthy for Sensitive Groups" /\
  label (getAqiCategory (Some 200%float)) = "Unhealthy" /\
  label (getAqiCategory (Some 300%float)) = "Very Unhealthy" /\
  label (getAqiCategory (Some 301%float)) = "Hazardous".
Proof.
  split; [reflexivity|]. split; [|repeat split; vm_compute; reflexivity].
  intros v. unfold getAqiCategory.
  repeat split.
  - intros ->. reflexivity.
  - intros H. rewrite (leb_not_nan _ _ H), H. reflexivity.
  - intros L H. rewrite (leb_not_nan _ _ H), (ltb_not_leb _ _ L), H.
    reflexivity.
  - intros L H. rewrite (leb_not_nan _ _ H), H.
    rewrite (above_not_leb 50 100 v), (above_not_leb 100 100 v);
      auto; reflexivity.
  - intros L H. rewrite (leb_not_nan _ _ H), H.
    rewrite (above_not_leb 50 150 v), (above_not_leb 100 150 v),
      (above_not_leb 150 150 v); auto; reflexivity.
  - intros L H. rewrite (leb_not_nan _ _ H), H.
    rewrite (above_not_leb 50 200 v), (above_not_leb 100 200 v),
      (above_not_leb 150 200 v), (above_not_leb 200 200 v);
      auto; reflexivity.
  - intros L. rewrite (ltb_not_nan_r _ _ L).
    rewrite (above_not_leb 50 300 v), (above_not_leb 100 300 v),
      (above_not_leb 150 300 v), (above_not_leb 200 300 v),
      (above_not_leb 300 300 v); auto; reflexivity.
Qed.

Lemma getAqiCategory_buckets_witness :
  label (getAqiCategory (Some 75.5%float)) = "Moderate"
  /\ label (getAqiCategory (Some (-3)%float)) = "Good"
  /\ label (getAqiCategory (Some PrimFloat.infinity)) = "Hazardous"
  /\ label (getAqiCategory (Some PrimFloat.nan)) = "Unknown".
Proof.
  destruct getAqiCategory_buckets as (_ & Hbuckets & _).
  split; [|split; [|split]].
  - destruct (Hbuckets 75.5%float) as (_ & _ & H & _).
    apply H; reflexivity.
  - destruct (Hbuckets (-3)%float) as (_ & H & _). apply H; reflexivity.
  - destruct (Hbuckets PrimFloat.infinity) as (_ & _ & _ & _ & _ & _ & H).
    apply H; reflexivity.
  - destruct (Hbuckets PrimFloat.nan) as (H & _). apply H; reflexivity.
Defined.

(** ** City keys *)

Section CityKey.

Lemma lower_upper_char (c : ascii) : lower_char (upper_char c) = lower_char c.
Proof. destruct c as [[] [] [] [] [] [] [] []]; reflexivity. Qed.

Lemma whitespace_lower_char (c : ascii) :
  is_whitespace (lower_char c) = is_whitespace c.
Proof. destruct c as [[] [] [] [] [] [] [] []]; reflexivity. Qed.

Lemma same_letter_lower (c d : ascii) :
  same_letter c d -> lower_char c = lower_char d.
Proof.
  intros [->|[->| ->]]; [reflexivity| |]; rewrite lower_upper_char; reflexivity.
Qed.

Lemma same_letters_toLowerCase (s t : string) :
  same_letters s t -> toLowerCase s = toLowerCase t.
Proof.
  induction 1 as [|c d s t Hcd _ IH]; simpl; [reflexivity|].
  rewrite (same_letter_lower _ _ Hcd), IH. reflexivity.
Qed.

Lemma toLowerCase_trimStart (s : string) :
  toLowerCase (trimStart s) = trimStart (toLowerCase s).
Proof.
  induction s as [|c r IH]; simpl; [reflexivity|].
  rewrite whitespace_lower_char.
  destruct (is_whitespace c); [exact IH|reflexivity].
Qed.

Lemma toLowerCase_trimEnd (s : string) :
  toLowerCase (trimEnd s) = trimEnd (toLowerCase s).
Proof.
  induction s as [|c r IH]; simpl; [reflexivity|].
  rewrite <- IH, whitespace_lower_char.
  destruct (trimEnd r); simpl; [|reflexivity].
  destruct (is_whitespace c); reflexivity.
Qed.

Lemma toLowerCase_trim (s : string) :
  toLowerCase (trim s) = trim (toLowerCase s).
Proof. unfold trim. rewrite toLowerCase_trimEnd, toLowerCase_trimStart. reflexivity. Qed.

Lemma trimStart_padding (s : string) : padding s = true -> trimStart s = EmptyString.
Proof.
  induction s as [|c r IH]; simpl; [reflexivity|].
  intros [Hc Hr]%andb_prop. rewrite Hc. auto.
Qed.

Lemma trimEnd_padding (s : string) : padding s = true -> trimEnd s = EmptyString.
Proof.
  induction s as [|c r IH]; simpl; [reflexivity|].
  intros [Hc Hr]%andb_prop. rewrite (IH Hr), Hc. reflexivity.
Qed.

Lemma trimStart_app_padding (l s : string) :
  padding l = true -> trimStart (String.append l s) = trimStart s.
Proof.
  induction l as [|c r IH]; simpl; [reflexivity|].
  intros [Hc Hr]%andb_prop. rewrite Hc. auto.
Qed.

Lemma trimEnd_app_padding (s r : string) :
  padding r = true -> trimEnd (String.append s r) = trimEnd s.
Proof.
  intros Hr. induction s as [|c s IH]; simpl.
  - apply trimEnd_padding, Hr.
  - rewrite IH. reflexivity.
Qed.

Lemma trim_app_padding_r (s r : string) :
  padding r = true -> trim (String.append s r) = trim s.
Proof.
  intros Hr. unfold trim. induction s as [|c s IH]; simpl.
  - change (EmptyString +:+ r) with r.
    rewrite (trimStart_padding _ Hr). reflexivity.
  - change (String c s +:+ r) with (String c (s +:+ r)). simpl.
    destruct (is_whitespace c); [exact IH|].
    apply (trimEnd_app_padding (String c s)), Hr.
Qed.

Lemma trim_padded (l s r : string) :
  padding l = true -> padding r = true ->
  trim (String.append l (String.append s r)) = trim s.
Proof.
  intros Hl Hr. unfold trim. rewrite (trimStart_app_padding _ _ Hl).
  apply trim_app_padding_r, Hr.
Qed.

End CityKey.

Lemma spelling_variant_key (a b : string) :
  spelling_variant a b -> normalizeCityKey a = normalizeCityKey b.
Proof.
  intros [l1 r1 l2 r2 s t Hl1 Hr1 Hl2 Hr2 Hst]. unfold normalizeCityKey.
  rewrite !trim_padded by assumption.
  rewrite !toLowerCase_trim, (same_letters_toLowerCase _ _ Hst). reflexivity.
Qed.




(** ** The [Map] operations *)

Section JsMapFacts.
Context {V : Type}.
Implicit Types (m : list (string * V)) (k : string) (v : V).

Lemma Map_get_None m k : Map_get m k = None <-> k ∉ map fst m.
Proof.
  induction m as [|[k' v'] m IH]; simpl.
  { split; [intros _; apply not_elem_of_nil|reflexivity]. }
  rewrite not_elem_of_cons.
  destruct (String.eqb_spec k k') as [->|Hne]; [|tauto].
  split; [discriminate|]. intros [H _]. contradiction.
Qed.

Lemma Map_get_Some_elem m k v : Map_get m k = Some v -> k ∈ map fst m.
Proof.
  intros H. destruct (decide (k ∈ map fst m)) as [HIn|HnIn]; [exact HIn|].
  apply Map_get_None in HnIn. congruence.
Qed.

Lemma Map_delete_absent m k : Map_get m k = None -> Map_delete m k = m.
Proof.
  induction m as [|[k' v'] m IH]; simpl; [reflexivity|].
  destruct (String.eqb k k'); [discriminate|].
  intros H. rewrite (IH H). reflexivity.
Qed.

Lemma Map_delete_keys_incl m k k' :
  k' ∈ map fst (Map_delete m k) -> k' ∈ map fst m.
Proof.
  induction m as [|[k0 v0] m IH]; simpl; [tauto|].
  destruct (String.eqb k k0); simpl; rewrite ?elem_of_cons; tauto.
Qed.

Lemma Map_delete_wf m k : Map_wf m -> Map_wf (Map_delete m k).
Proof.
  unfold Map_wf. induction m as [|[k0 v0] m IH]; simpl; [auto|].
  intros Hwf. apply NoDup_cons in Hwf as [Hk0 Hm].
  destruct (String.eqb k k0); simpl; [exact Hm|].
  apply NoDup_cons. split; [|auto].
  intros HIn. apply Hk0. eapply Map_delete_keys_incl, HIn.
Qed.

Lemma Map_get_delete_same m k : Map_wf m -> Map_get (Map_delete m k) k = None.
Proof.
  unfold Map_wf. induction m as [|[k0 v0] m IH]; simpl; [reflexivity|].
  intros Hwf. apply NoDup_cons in Hwf as [Hk0 Hm].
  destruct (String.eqb_spec k k0) as [->|Hne].
  - apply Map_get_None, Hk0.
  - simpl. destruct (String.eqb_spec k k0); [contradiction|]. auto.
Qed.

Lemma Map_get_delete_other m k k' :
  k <> k' -> Map_get (Map_delete m k) k' = Map_get m k'.
Proof.
  intros Hne. induction m as [|[k0 v0] m IH]; simpl; [reflexivity|].
  destruct (String.eqb_spec k k0) as [->|Hk].
  - destruct (String.eqb_spec k' k0); [congruence|reflexivity].
  - simpl. rewrite IH. reflexivity.
Qed.

Lemma Map_size_delete m k v :
  Map_get m k = Some v -> S (Map_size (Map_delete m k)) = Map_size m.
Proof.
  unfold Map_size. induction m as [|[k0 v0] m IH]; simpl; [discriminate|].
  destruct (String.eqb k k0); [reflexivity|].
  intros H. simpl. rewrite (IH H). reflexivity.
Qed.

Lemma Map_set_absent m k v : Map_get m k = None -> Map_set m k v = (m ++ [(k, v)])%list.
Proof.
  induction m as [|[k0 v0] m IH]; simpl; [reflexivity|].
  destruct (String.eqb k k0); [discriminate|].
  intros H. rewrite (IH H). reflexivity.
Qed.

Lemma Map_get_set_same m k v : Map_get (Map_set m k v) k = Some v.
Proof.
  induction m as [|[k0 v0] m IH]; simpl.
  - rewrite String.eqb_refl. reflexivity.
  - destruct (String.eqb_spec k k0) as [->|Hne]; simpl.
    + rewrite String.eqb_refl. reflexivity.
    + destruct (String.eqb_spec k k0); [contradiction|exact IH].
Qed.

Lemma Map_get_set_other m k k' v :
  k <> k' -> Map_get (Map_set m k v) k' = Map_get m k'.
Proof.
  intros Hne. induction m as [|[k0 v0] m IH]; simpl.
  - destruct (String.eqb_spec k' k); [congruence|reflexivity].
  - destruct (String.eqb_spec k k0) as [->|Hk]; simpl.
    + destruct (String.eqb_spec k' k0); [congruence|reflexivity].
    + rewrite IH. reflexivity.
Qed.

Lemma Map_set_keys m k v k' :
  k' ∈ map fst (Map_set m k v) <-> k' = k \/ k' ∈ map fst m.
Proof.
  induction m as [|[k0 v0] m IH]; simpl.
  - rewrite list_elem_of_singleton, elem_of_nil. tauto.
  - destruct (String.eqb_spec k k0) as [->|Hk]; simpl;
      rewrite !elem_of_cons; [|rewrite IH]; tauto.
Qed.

Lemma Map_set_wf m k v : Map_wf m -> Map_wf (Map_set m k v).
Proof.
  unfold Map_wf. induction m as [|[k0 v0] m IH]; simpl.
  - intros _. apply NoDup_singleton.
  - intros Hwf. apply NoDup_cons in Hwf as [Hk0 Hm].
    destruct (String.eqb_spec k k0) as [->|Hk]; simpl.
    + apply NoDup_cons. split; assumption.
    + apply NoDup_cons. split; [|auto].
      rewrite Map_set_keys. intros [E|HIn]; [congruence|contradiction].
Qed.

Lemma Map_size_set_absent m k v :
  Map_get m k = None -> Map_size (Map_set m k v) = S (Map_size m).
Proof.
  intros H. rewrite (Map_set_absent _ _ _ H). unfold Map_size.
  rewrite length_app. simpl. lia.
Qed.

Lemma Map_size_set_present m k v v0 :
  Map_get m k = Some v0 -> Map_size (Map_set m k v) = Map_size m.
Proof.
  unfold Map_size. induction m as [|[k1 v1] m IH]; simpl; [discriminate|].
  destruct (String.eqb k k1); simpl; [reflexivity|].
  intros H. rewrite (IH H). reflexivity.
Qed.

End JsMapFacts.

(** The operations keep a [Map] a [Map]. *)
Create HintDb jsmap.
#[export] Hint Resolve Map_delete_wf Map_set_wf : jsmap.

(** ** Lookups in the cache *)

Section CacheFacts.
Implicit Types (c : Cache) (e entry : CacheEntry).

(** The entry a hit leaves in the place of [entry]. *)
Let touch (now : Z) (entry : CacheEntry) : CacheEntry :=
  {| data := data entry; expiresAt := expiresAt entry; lastAccessed := now |}.

Lemma getFromCache_miss now city c :
  Map_get c (normalizeCityKey city) = None ->
  getFromCache now city c = (None, c).
Proof. unfold getFromCache. intros ->. reflexivity. Qed.

Lemma getFromCache_expired now city c entry :
  Map_get c (normalizeCityKey city) = Some entry ->
  expiresAt entry <= now ->
  getFromCache now city c = (None, Map_delete c (normalizeCityKey city)).
Proof.
  unfold getFromCache. intros -> Hexp.
  destruct (Z.leb_spec (expiresAt entry) now); [reflexivity|lia].
Qed.

Lemma getFromCache_hit now city c entry :
  Map_wf c ->
  Map_get c (normalizeCityKey city) = Some entry ->
  now < expiresAt entry ->
  getFromCache now city c =
    (Some (data entry),
     (Map_delete c (normalizeCityKey city)
        ++ [(normalizeCityKey city, touch now entry)])%list).
Proof.
  unfold getFromCache. intros Hwf -> Hlive.
  destruct (Z.leb_spec (expiresAt entry) now); [lia|].
  rewrite Map_set_absent by (apply Map_get_delete_same, Hwf). reflexivity.
Qed.

Lemma getFromCache_wf now city c :
  Map_wf c -> Map_wf (snd (getFromCache now city c)).
Proof.
  intros Hwf. unfold getFromCache.
  destruct (Map_get c (normalizeCityKey city)) as [entry|]; [|exact Hwf].
  destruct (expiresAt entry <=? now); simpl; auto with jsmap.
Qed.

(** A lookup of another key leaves the entry of [key] as it is; a hit
    on [key] changes its [lastAccessed] only. *)
Lemma getFromCache_keeps_entry now city c key e :
  Map_wf c ->
  Map_get c key = Some e ->
  (normalizeCityKey city = key -> now < expiresAt e) ->
  exists e', Map_get (snd (getFromCache now city c)) key = Some e'
             /\ expiresAt e' = expiresAt e /\ data e' = data e.
Proof.
  intros Hwf Hget Hlive.
  destruct (decide (normalizeCityKey city = key)) as [<-|Hne].
  - rewrite (getFromCache_hit _ _ _ _ Hwf Hget (Hlive eq_refl)). simpl.
    exists (touch now e). split; [|split; reflexivity].
    rewrite <- Map_set_absent by (apply Map_get_delete_same, Hwf).
    apply Map_get_set_same.
  - exists e. split; [|split; reflexivity]. unfold getFromCache.
    destruct (Map_get c (normalizeCityKey city)) as [entry|]; [|exact Hget].
    destruct (expiresAt entry <=? now); simpl.
    + rewrite Map_get_delete_other by exact Hne. exact Hget.
    + rewrite Map_get_set_other, Map_get_delete_other by exact Hne.
      exact Hget.
Qed.

Lemma lookups_wf ops c : Map_wf c -> Map_wf (lookups ops c).
Proof.
  unfold lookups. revert c. induction ops as [|op ops IH]; simpl; [auto|].
  intros c Hwf. apply IH, getFromCache_wf, Hwf.
Qed.

Lemma lookups_keep_entry ops c key e :
  Map_wf c ->
  Map_get c key = Some e ->
  Forall (fun op => normalizeCityKey (snd op) = key -> fst op < expiresAt e) ops ->
  exists e', Map_get (lookups ops c) key = Some e'
             /\ expiresAt e' = expiresAt e /\ data e' = data e.
Proof.
  unfold lookups. revert c e. induction ops as [|op ops IH]; simpl.
  - intros c e _ Hget _. exists e. auto.
  - intros c e Hwf Hget Hops. apply Forall_cons in Hops as [Hop Hops].
    destruct (getFromCache_keeps_entry (fst op) (snd op) c key e Hwf Hget Hop)
      as (e1 & Hget1 & Hexp1 & Hdata1).
    destruct (IH _ e1 (getFromCache_wf _ _ _ Hwf) Hget1) as (e' & ? & ? & ?).
    { rewrite Hexp1. exact Hops. }
    exists e'. repeat split; congruence.
Qed.

Lemma evictIfNeeded_wf c : Map_wf c -> Map_wf (evictIfNeeded c).
Proof.
  intros Hwf. unfold evictIfNeeded.
  destruct (Map_size c <=? MAX_CACHE_ENTRIES)%nat; [exact Hwf|].
  destruct (Map_first_key c) as [k|]; [|exact Hwf].
  destruct (negb (k =? "")%string); auto with jsmap.
Qed.

Lemma setInCache_wf now city d c : Map_wf c -> Map_wf (setInCache now city d c).
Proof. intros Hwf. apply evictIfNeeded_wf. auto with jsmap. Qed.

(** What [setInCache] leaves under the key is the entry it made. *)
Lemma Map_get_setInCache now city d c e :
  Map_wf c ->
  Map_get (setInCache now city d c) (normalizeCityKey city) = Some e ->
  e = {| data := d; expiresAt := now + CACHE_TTL_MS; lastAccessed := now |}.
Proof.
  intros Hwf. unfold setInCache, evictIfNeeded.
  set (key := normalizeCityKey city).
  set (entry := {| data := d; expiresAt := _; lastAccessed := _ |}).
  pose proof (Map_get_set_same c key entry) as Hset.
  pose proof (Map_set_wf c key entry Hwf) as Hwf'.
  destruct (Map_size _ <=? MAX_CACHE_ENTRIES)%nat; [congruence|].
  destruct (Map_first_key _) as [k|]; [|congruence].
  destruct (negb (k =? "")%string); [|congruence].
  destruct (decide (k = key)) as [->|Hne].
  - rewrite Map_get_delete_same by exact Hwf'. discriminate.
  - rewrite Map_get_delete_other by exact Hne. congruence.
Qed.

End CacheFacts.

(** C8. A lookup of a key whose entry has passed its [expiresAt]
    (the clock has reached it) deletes the entry and returns [null]:
    the key is gone and the cache is one entry smaller.  A lookup of a
    key whose entry has not returns the stored record and moves the
    entry, with [lastAccessed] set to the time of the lookup and nothing
    else changed, to the end of the [Map], the most recently used
    position; the size stays. *)
Theorem getFromCache_expired_or_touched
    (now : Z) (city : string) (c : Cache) (entry : CacheEntry) :
  Map_wf c ->
  Map_get c (normalizeCityKey city) = Some entry ->
  let key := normalizeCityKey city in
  let touched := {| data := data entry;
                    expiresAt := expiresAt entry;
                    lastAccessed := now |} in
  (expiresAt entry <= now ->
     getFromCache now city c = (None, Map_delete c key)
     /\ Map_get (Map_delete c key) key = None
     /\ S (Map_size (Map_delete c key)) = Map_size c)
  /\
  (now < expiresAt entry ->
     getFromCache now city c
       = (Some (data entry), (Map_delete c key ++ [(key, touched)])%list)
     /\ Map_get (Map_delete c key ++ [(key, touched)])%list key = Some touched
     /\ last (Map_delete c key ++ [(key, touched)])%list = Some (key, touched)
     /\ Map_size (Map_delete c key ++ [(key, touched)])%list = Map_size c).
Proof.
  intros Hwf Hget key touched. split.
  - intros Hexp. split; [|split].
    + exact (getFromCache_expired now city c entry Hget Hexp).
    + apply Map_get_delete_same, Hwf.
    + eapply Map_size_delete, Hget.
  - intros Hlive. split; [|split; [|split]].
    + exact (getFromCache_hit now city c entry Hwf Hget Hlive).
    + rewrite <- Map_set_absent by (apply Map_get_delete_same, Hwf).
      apply Map_get_set_same.
    + apply last_snoc.
    + unfold Map_size. rewrite length_app. simpl.
      pose proof (Map_size_delete _ _ _ Hget) as Hs. unfold Map_size in Hs.
      fold key in Hs. lia.
Qed.

Example bare_document_normalized (cityQuery : string) :
  normalizeAqicnResponse bare_document cityQuery = Some (bare_record cityQuery).
Proof. reflexivity. Qed.

Lemma getFromCache_expired_or_touched_witness :
  let c := [("delhi", {| data := bare_record "Delhi";
                         expiresAt := 300000; lastAccessed := 0 |})] in
  (getFromCache 300000 " Delhi " c = (None, [])
   /\ S (Map_size (Map_delete c "delhi")) = Map_size c)
  /\ getFromCache 299999 " Delhi " c
     = (Some (bare_record "Delhi"),
        [("delhi", {| data := bare_record "Delhi";
                      expiresAt := 300000; lastAccessed := 299999 |})]).
Proof.
  intros c.
  assert (Hwf : Map_wf c) by (apply NoDup_singleton).
  assert (Hget : Map_get c (normalizeCityKey " Delhi ") = Some
            {| data := bare_record "Delhi";
               expiresAt := 300000; lastAccessed := 0 |}) by reflexivity.
  split.
  - destruct (getFromCache_expired_or_touched 300000 " Delhi " c _ Hwf Hget)
      as [Hexp _].
    destruct Hexp as (Hrun & _ & Hsize); [simpl; lia|].
    split; [exact Hrun|exact Hsize].
  - destruct (getFromCache_expired_or_touched 299999 " Delhi " c _ Hwf Hget)
      as [_ Hlive].
    destruct Hlive as (Hrun & _); [simpl; lia|]. exact Hrun.
Defined.

(** C9. A hit never extends the life of an entry.  Take the entry that
    [setInCache] stores at time [t0], and any run of lookups in which
    those of its key are made before [t0 + CACHE_TTL_MS]: each hit on it
    returns the stored record and leaves an entry with the same record
    and the same [expiresAt], only [lastAccessed] being the time of the
    hit; after the whole run the entry still holds the record and
    expires at [t0 + CACHE_TTL_MS]; and from that time on a lookup of
    the key returns [null]. *)
Theorem cache_hit_keeps_expiry
    (t0 : Z) (city : string) (d : AqiRecord) (c : Cache)
    (ops : list (Z * string)) :
  Map_wf c ->
  let key := normalizeCityKey city in
  let c0 := setInCache t0 city d c in
  Map_get c0 key <> None ->
  Forall (fun op => normalizeCityKey (snd op) = key ->
                    fst op < t0 + CACHE_TTL_MS) ops ->
  (forall now, now < t0 + CACHE_TTL_MS ->
     fst (getFromCache now city c0) = Some d
     /\ Map_get (snd (getFromCache now city c0)) key
        = Some {| data := d;
                  expiresAt := t0 + CACHE_TTL_MS;
                  lastAccessed := now |})
  /\ (exists e, Map_get (lookups ops c0) key = Some e
                /\ expiresAt e = t0 + CACHE_TTL_MS /\ data e = d)
  /\ (forall t, t0 + CACHE_TTL_MS <= t ->
        fst (getFromCache t city (lookups ops c0)) = None).
Proof.
  intros Hwf key c0 Hkept Hops.
  assert (Hwf0 : Map_wf c0) by (apply setInCache_wf, Hwf).
  destruct (Map_get c0 key) as [e0|] eqn:Hget0; [clear Hkept|congruence].
  pose proof (Map_get_setInCache _ _ _ _ _ Hwf Hget0) as He0.
  assert (Hexp0 : expiresAt e0 = t0 + CACHE_TTL_MS) by (subst e0; reflexivity).
  assert (Hdata0 : data e0 = d) by (subst e0; reflexivity).
  destruct (lookups_keep_entry ops c0 key e0 Hwf0 Hget0) as (e & Hget & Hexp & Hdata).
  { rewrite Hexp0. exact Hops. }
  split; [|split].
  - intros now Hnow.
    rewrite (getFromCache_hit now city c0 e0 Hwf0 Hget0) by lia. simpl.
    split; [congruence|].
    rewrite <- Map_set_absent by (apply Map_get_delete_same, Hwf0).
    fold key. rewrite Map_get_set_same, Hexp0, Hdata0. reflexivity.
  - exists e. repeat split; congruence.
  - intros t Ht.
    rewrite (getFromCache_expired t city _ e Hget) by lia. reflexivity.
Qed.

Lemma cache_hit_keeps_expiry_witness :
  let c0 := setInCache 1000 "Delhi" (bare_record "Delhi") [] in
  let ops := [(2000, "delhi"); (5000, "Pune"); (301000 - 1, " DELHI")] in
  (exists e, Map_get (lookups ops c0) "delhi" = Some e
             /\ expiresAt e = 301000 /\ data e = bare_record "Delhi")
  /\ fst (getFromCache 301000 "Delhi" (lookups ops c0)) = None.
Proof.
  intros c0 ops.
  assert (Hwf : Map_wf ([] : Cache)) by constructor.
  assert (Hkept : Map_get (setInCache 1000 "Delhi" (bare_record "Delhi") [])
                    (normalizeCityKey "Delhi") <> None) by discriminate.
  assert (Hops : Forall (fun op => normalizeCityKey (snd op)
                                   = normalizeCityKey "Delhi" ->
                                   fst op < 1000 + CACHE_TTL_MS) ops).
  { repeat constructor; simpl; intros _; unfold CACHE_TTL_MS; lia. }
  destruct (cache_hit_keeps_expiry 1000 "Delhi" (bare_record "Delhi") []
              ops Hwf Hkept Hops) as (_ & Hentry & Hlater).
  split; [exact Hentry|]. apply Hlater. unfold CACHE_TTL_MS. lia.
Defined.

(** ** Capacity *)

Section Capacity.
Implicit Types (c : Cache).

Lemma Map_size_set_le {V} (m : list (string * V)) k v :
  (Map_size (Map_set m k v) <= S (Map_size m))%nat.
Proof.
  destruct (Map_get m k) as [v0|] eqn:Hget.
  - rewrite (Map_size_set_present _ _ _ _ Hget). lia.
  - rewrite (Map_size_set_absent _ _ _ Hget). lia.
Qed.

Lemma Map_first_key_set {V} (m : list (string * V)) k v :
  m <> [] -> Map_first_key (Map_set m k v) = Map_first_key m.
Proof.
  destruct m as [|[k0 v0] m]; [congruence|]. intros _. simpl.
  destruct (k =? k0)%string; reflexivity.
Qed.

(** As long as the oldest key is not the empty string, one eviction
    brings a cache of [MAX_CACHE_ENTRIES + 1] entries back to the
    limit. *)
Lemma evictIfNeeded_size c :
  Map_first_key c <> Some "" ->
  (Map_size c <= S MAX_CACHE_ENTRIES)%nat ->
  (Map_size (evictIfNeeded c) <= MAX_CACHE_ENTRIES)%nat.
Proof.
  intros Hfirst Hsize. unfold evictIfNeeded.
  destruct (Nat.leb_spec (Map_size c) MAX_CACHE_ENTRIES) as [Hle|Hgt];
    [exact Hle|].
  destruct c as [|[k0 e0] rest]; [simpl in Hgt; lia|].
  simpl. rewrite String.eqb_refl.
  destruct (String.eqb_spec k0 "") as [->|Hk0];
    [exfalso; apply Hfirst; reflexivity|].
  unfold Map_size, MAX_CACHE_ENTRIES in *. simpl in *. lia.
Qed.

Lemma setInCache_size now city d c :
  Map_first_key c <> Some "" ->
  (Map_size c <= MAX_CACHE_ENTRIES)%nat ->
  (Map_size (setInCache now city d c) <= MAX_CACHE_ENTRIES)%nat.
Proof.
  intros Hfirst Hsize. unfold setInCache.
  set (key := normalizeCityKey city).
  set (entry := {| data := d; expiresAt := _; lastAccessed := _ |}).
  destruct c as [|p rest] eqn:Hc.
  - vm_compute. lia.
  - rewrite <- Hc in *. apply evictIfNeeded_size.
    + rewrite Map_first_key_set by (subst c; discriminate). exact Hfirst.
    + pose proof (Map_size_set_le c key entry). lia.
Qed.

(** The entry evicted is the first of the [Map]. *)
Lemma setInCache_evicts_oldest now city d k0 e0 (rest : Cache) :
  Map_size ((k0, e0) :: rest) = MAX_CACHE_ENTRIES ->
  Map_get ((k0, e0) :: rest) (normalizeCityKey city) = None ->
  k0 <> "" ->
  setInCache now city d ((k0, e0) :: rest)
  = (rest ++ [(normalizeCityKey city,
               {| data := d; expiresAt := now + CACHE_TTL_MS;
                  lastAccessed := now |})])%list.
Proof.
  intros Hsize Hget Hk0. unfold setInCache.
  rewrite (Map_set_absent _ _ _ Hget). unfold evictIfNeeded.
  assert (Hlen : Map_size (((k0, e0) :: rest) ++
     [(normalizeCityKey city,
       {| data := d; expiresAt := now + CACHE_TTL_MS; lastAccessed := now |})])%list
     = S MAX_CACHE_ENTRIES).
  { unfold Map_size, MAX_CACHE_ENTRIES in *. rewrite length_app.
    simpl in *. lia. }
  rewrite Hlen. simpl. rewrite String.eqb_refl.
  destruct (String.eqb_spec k0 "") as [->|_]; [congruence|]. reflexivity.
Qed.

End Capacity.

(** Past the route, which turns blank cities down: a caller of the
    module that stores a record for the blank city and then for a
    hundred others.  The 101 keys are distinct.  After the first hundred
    the cache holds 100 entries, the oldest being that of the empty key;
    the next [setInCache] leaves 101 entries, the empty key still among
    them, since [if (oldestKey)] takes the empty string for no key; and
    the cache grows with every city after that.  The same happens when
    the 101 records are stored by 101 calls of [getCityAqi]. *)
Lemma setInCache_blank_key_overflow :
  let store := fun c city => setInCache 0 city (bare_record city) c in
  let c100 := fold_left store (take 100 blank_first_cities) [] in
  let c := fold_left store blank_first_cities [] in
  let env := provider_of (Some "demo") bare_document in
  let w0 := {| cache := []; clock := 0; requests := [] |} in
  let w := fold_left (fun w city => snd (getCityAqi env city w))
             blank_first_cities w0 in
  NoDup (map normalizeCityKey blank_first_cities)
  /\ length blank_first_cities = 101%nat
  /\ Map_size c100 = 100%nat
  /\ Map_first_key c100 = Some ""
  /\ c = store c100 "99"
  /\ Map_size c = 101%nat
  /\ Map_get c "" <> None
  /\ Map_size (store c "pune") = 102%nat
  /\ Map_size (cache w) = 101%nat
  /\ Map_first_key (cache w) = Some "".
Proof.
  intros store c100 c env w0 w. split.
  - apply (bool_decide_unpack _). vm_compute. exact I.
  - repeat split; try (vm_compute; reflexivity). vm_compute. discriminate.
Qed.

(** ** The lookup service *)

Section Service.
Implicit Types (env : Env) (w : World) (city : string).

Lemma getCityAqi_cached env city w cached :
  fst (getFromCache (clock w) city (cache w)) = Some cached ->
  getCityAqi env city w
  = (Return (Some (with_cache_info true cached)), looked_up city w).
Proof.
  intros Hhit.
  unfold getCityAqi, getFromCache_now, bind, Date_now, on_cache, looked_up.
  destruct (getFromCache (clock w) city (cache w)) as [r c1]. simpl in *.
  subst r. reflexivity.
Qed.

Lemma getCityAqi_no_token env city w :
  fst (getFromCache (clock w) city (cache w)) = None ->
  AQICN_API_TOKEN env = None \/ AQICN_API_TOKEN env = Some "" ->
  getCityAqi env city w = (Throw MissingToken, looked_up city w).
Proof.
  intros Hmiss Htoken.
  unfold getCityAqi, getFromCache_now, bind, Date_now, on_cache, looked_up.
  destruct (getFromCache (clock w) city (cache w)) as [r c1]. simpl in *.
  subst r. destruct Htoken as [-> | ->]; reflexivity.
Qed.

(** After a miss, with a token, a response that is [ok] and a body
    that parses, the call goes on with the document. *)
Lemma getCityAqi_fetched env city w token resp raw :
  fst (getFromCache (clock w) city (cache w)) = None ->
  AQICN_API_TOKEN env = Some token -> token <> "" ->
  response (fetch env (feed_url city token)) = Some resp ->
  ok resp = true -> body resp = Some raw ->
  getCityAqi env city w
  = (let! raw_status := property raw "status" in
     if negb (is_string raw_status "ok") then ret None
     else
       let normalized := normalizeAqicnResponse raw city in
       let! _ := match normalized with
                 | Some normalized => setInCache_now city normalized
                 | None => ret tt
                 end in
       match normalized with
       | Some normalized => ret (Some (with_cache_info false normalized))
       | None => throw (TypeError "meta")
       end) (answered env city token w).
Proof.
  intros Hmiss Htoken Hne Hresp Hok Hbody.
  unfold getCityAqi, getFromCache_now, Date_now, on_cache, await_fetch,
    await_json.
  unfold bind at 1 2 3. 
  destruct (getFromCache (clock w) city (cache w)) as [r c1] eqn:Hlook.
  simpl in Hmiss. subst r. cbn [fst snd]. rewrite Htoken.
  destruct (String.eqb_spec token "") as [|_]; [contradiction|].
  unfold bind at 1. cbn [cache clock requests]. rewrite Hresp, Hok. cbn [negb].
  unfold bind at 1. rewrite Hbody. unfold ret at 1.
  unfold answered. rewrite Hlook. reflexivity.
Qed.

Lemma is_string_true (v : jsval) (s : string) :
  is_string v s = true <-> v = Some (JStr s).
Proof.
  destruct v as [[]|]; simpl; try (split; [discriminate|congruence]).
  destruct (String.eqb_spec s0 s) as [->|Hne]; split; congruence.
Qed.

Lemma property_not_null (raw : json) (p : string) w :
  raw <> JNull -> property raw p w = (Return (get raw p), w).
Proof. destruct raw; [congruence| | | | |]; reflexivity. Qed.

(** A miss with a token in the configuration issues one request,
    whatever the network answers. *)
Lemma getCityAqi_miss_requests env city w token :
  fst (getFromCache (clock w) city (cache w)) = None ->
  AQICN_API_TOKEN env = Some token -> token <> "" ->
  requests (snd (getCityAqi env city w))
  = (requests w ++ [feed_url city token])%list.
Proof.
  intros Hmiss Htoken Hne.
  unfold getCityAqi, getFromCache_now, Date_now, on_cache, await_fetch,
    await_json, setInCache_now, Date_now, on_cache.
  unfold bind at 1 2 3.
  destruct (getFromCache (clock w) city (cache w)) as [r c1] eqn:Hlook.
  simpl in Hmiss. subst r. cbn [fst snd]. rewrite Htoken.
  destruct (String.eqb_spec token "") as [|_]; [contradiction|].
  unfold bind at 1. cbn [cache clock requests].
  destruct (response _) as [resp|]; [|reflexivity].
  destruct (ok resp); [|reflexivity]. cbn [negb].
  unfold bind at 1.
  destruct (body resp) as [raw|]; [|reflexivity]. unfold ret at 1.
  unfold bind at 1.
  destruct raw; try reflexivity; unfold property, ret at 1;
    destruct (negb _); try reflexivity;
    destruct (normalizeAqicnResponse _ _); reflexivity.
Qed.

End Service.

(** C10. When the key of the city is in the cache and has not expired,
    [getCityAqi] answers with the cached record and [cache.hit = true],
    whatever the configuration holds: a missing token does not fail the
    call, and no request is issued. *)
Theorem getCityAqi_hit_needs_no_token
    (env : Env) (city : string) (w : World) (entry : CacheEntry) :
  Map_get (cache w) (normalizeCityKey city) = Some entry ->
  clock w < expiresAt entry ->
  exists answer,
    fst (getCityAqi env city w) = Return (Some answer)
    /\ answer = with_cache_info true (data entry)
    /\ Meta.cache (meta answer)
       = Some {| CacheInfo.hit := true; CacheInfo.ttlMs := CACHE_TTL_MS |}
    /\ payload answer = payload (data entry)
    /\ Meta.provider (meta answer) = Meta.provider (meta (data entry))
    /\ Meta.apiDocs (meta answer) = Meta.apiDocs (meta (data entry))
    /\ requests (snd (getCityAqi env city w)) = requests w.
Proof.
  intros Hget Hlive. exists (with_cache_info true (data entry)).
  assert (Hhit : fst (getFromCache (clock w) city (cache w))
                 = Some (data entry)).
  { unfold getFromCache. rewrite Hget.
    destruct (Z.leb_spec (expiresAt entry) (clock w)); [lia|reflexivity]. }
  rewrite (getCityAqi_cached env city w _ Hhit). repeat split; reflexivity.
Qed.

Lemma getCityAqi_hit_needs_no_token_witness :
  let env := {| AQICN_API_TOKEN := None;
                fetch := fun _ => {| latency := 0; response := None |} |} in
  let w := {| cache := [("delhi", {| data := bare_record "Delhi";
                                    expiresAt := 300000;
                                    lastAccessed := 0 |})];
              clock := 1000; requests := [] |} in
  exists answer,
    fst (getCityAqi env " DELHI" w) = Return (Some answer)
    /\ Meta.cache (meta answer)
       = Some {| CacheInfo.hit := true; CacheInfo.ttlMs := 300000 |}.
Proof.
  intros env w.
  destruct (getCityAqi_hit_needs_no_token env " DELHI" w
              {| data := bare_record "Delhi"; expiresAt := 300000;
                 lastAccessed := 0 |})
    as (answer & Hrun & _ & Hmeta & _); [reflexivity|simpl; lia|].
  exists answer. split; [exact Hrun|exact Hmeta].
Defined.

(** C6. Without a token in the configuration ([undefined], or the
    empty string), [getCityAqi] on a cache miss is rejected with the
    missing-token error and no request has been issued. *)
Theorem getCityAqi_missing_token (env : Env) (city : string) (w : World) :
  AQICN_API_TOKEN env = None \/ AQICN_API_TOKEN env = Some "" ->
  fst (getFromCache (clock w) city (cache w)) = None ->
  fst (getCityAqi env city w) = Throw MissingToken
  /\ requests (snd (getCityAqi env city w)) = requests w.
Proof.
  intros Htoken Hmiss. rewrite (getCityAqi_no_token env city w Hmiss Htoken).
  split; reflexivity.
Qed.

Lemma getCityAqi_missing_token_witness :
  let env := provider_of None bare_document in
  let w := {| cache := []; clock := 1000; requests := [] |} in
  fst (getCityAqi env "Delhi" w) = Throw MissingToken
  /\ requests (snd (getCityAqi env "Delhi" w)) = [].
Proof.
  intros env w.
  apply (getCityAqi_missing_token env "Delhi" w); [left|]; reflexivity.
Defined.

(** A document that is [ok] but has no data is not normalised, is not
    stored, and makes the call fail on [normalized.meta]. *)
Lemma getCityAqi_ok_no_data
    (env : Env) (city : string) (w : World) (token : string)
    (resp : Response) (raw : json) :
  fst (getFromCache (clock w) city (cache w)) = None ->
  AQICN_API_TOKEN env = Some token -> token <> "" ->
  response (fetch env (feed_url city token)) = Some resp ->
  ok resp = true -> body resp = Some raw ->
  get raw "status" = Some (JStr "ok") ->
  truthy (get raw "data") = false ->
  normalizeAqicnResponse raw city = None
  /\ getCityAqi env city w
     = (Throw (TypeError "meta"), answered env city token w).
Proof.
  intros Hmiss Htoken Hne Hresp Hok Hbody Hstatus Hdata.
  assert (Hnorm : normalizeAqicnResponse raw city = None).
  { unfold normalizeAqicnResponse. rewrite Hdata, !orb_true_r. reflexivity. }
  split; [exact Hnorm|].
  rewrite (getCityAqi_fetched env city w token resp raw) by assumption.
  unfold bind at 1. rewrite property_not_null.
  - rewrite Hstatus, Hnorm. reflexivity.
  - intros ->. discriminate.
Qed.

(** C1, on a document that breaks it.  The provider answers
    [{"status": "ok"}]: the normaliser returns [null] and nothing is
    stored, but the promise of [getCityAqi] is rejected with the
    [TypeError] of [normalized.meta] instead of being fulfilled with
    [null]. *)
Theorem getCityAqi_ok_without_data :
  let raw := JObj [("status", JStr "ok")] in
  let env := provider_of (Some "demo") raw in
  let w := {| cache := []; clock := 1000; requests := [] |} in
  get raw "status" = Some (JStr "ok")
  /\ get raw "data" = None
  /\ normalizeAqicnResponse raw "Delhi" = None
  /\ fst (getFromCache (clock w) "Delhi" (cache w)) = None
  /\ getCityAqi env "Delhi" w
     = (Throw (TypeError "meta"),
        {| cache := [];
           clock := 1120;
           requests := ["https://api.waqi.info/feed/Delhi/?token=demo"] |}).
Proof.
  intros raw env w.
  destruct (getCityAqi_ok_no_data env "Delhi" w "demo"
              {| status := 200; statusText := "OK"; body := Some raw |} raw)
    as [Hnorm Hrun]; try reflexivity; try discriminate.
  split; [reflexivity|]. split; [reflexivity|]. split; [exact Hnorm|].
  split; [reflexivity|exact Hrun].
Qed.

(** C5 as it is stated fails on a miss that is due to expiry: the
    lookup has deleted the expired entry before the provider is asked,
    so the cache is not what it was. *)
Lemma getCityAqi_negative_after_expiry :
  let raw := JObj [("status", JStr "error")] in
  let env := provider_of (Some "demo") raw in
  let w := {| cache := [("delhi", {| data := bare_record "Delhi";
                                    expiresAt := 300000;
                                    lastAccessed := 0 |})];
              clock := 300000; requests := [] |} in
  get raw "status" <> Some (JStr "ok")
  /\ fst (getFromCache (clock w) "Delhi" (cache w)) = None
  /\ fst (getCityAqi env "Delhi" w) = Return None
  /\ cache (snd (getCityAqi env "Delhi" w)) = []
  /\ cache (snd (getCityAqi env "Delhi" w)) <> cache w.
Proof.
  intros raw env w. repeat split; try reflexivity; discriminate.
Qed.

(** C5, amended.  For a document whose [status] is not ["ok"],
    [getCityAqi] on a cache miss is fulfilled with [null] and stores
    nothing: the cache is left as the lookup left it, which is as it
    was when the key had no entry, and without the expired entry of
    the key otherwise; one request has been issued; the key has no
    entry afterwards, so that the next call for the city, at whatever
    time, asks the provider again. *)
Theorem getCityAqi_negative_not_stored
    (env : Env) (city : string) (w : World) (token : string)
    (resp : Response) (raw : json) :
  Map_wf (cache w) ->
  fst (getFromCache (clock w) city (cache w)) = None ->
  AQICN_API_TOKEN env = Some token -> token <> "" ->
  response (fetch env (feed_url city token)) = Some resp ->
  ok resp = true -> body resp = Some raw ->
  raw <> JNull ->
  get raw "status" <> Some (JStr "ok") ->
  let key := normalizeCityKey city in
  let w' := snd (getCityAqi env city w) in
  fst (getCityAqi env city w) = Return None
  /\ cache w' = snd (getFromCache (clock w) city (cache w))
  /\ (Map_get (cache w) key = None -> cache w' = cache w)
  /\ (forall entry, Map_get (cache w) key = Some entry ->
        expiresAt entry <= clock w /\ cache w' = Map_delete (cache w) key)
  /\ Map_get (cache w') key = None
  /\ requests w' = (requests w ++ [feed_url city token])%list
  /\ (forall env2 token2 now,
        AQICN_API_TOKEN env2 = Some token2 -> token2 <> "" ->
        requests (snd (getCityAqi env2 city
                         {| cache := cache w'; clock := now;
                            requests := requests w' |}))
        = (requests w' ++ [feed_url city token2])%list).
Proof.
  intros Hwf Hmiss Htoken Hne Hresp Hok Hbody Hnull Hstatus key w'.
  assert (Hrun : getCityAqi env city w
                 = (Return None, answered env city token w)).
  { rewrite (getCityAqi_fetched env city w token resp raw) by assumption.
    unfold bind at 1. rewrite property_not_null by exact Hnull.
    destruct (is_string (get raw "status") "ok") eqn:E; [|reflexivity].
    apply is_string_true in E. contradiction. }
  assert (Hcache : cache w' = snd (getFromCache (clock w) city (cache w))).
  { unfold w'. rewrite Hrun. reflexivity. }
  assert (Hgone : Map_get (cache w') key = None).
  { rewrite Hcache. unfold getFromCache in *. fold key in Hmiss |- *.
    destruct (Map_get (cache w) key) as [entry|] eqn:Hget; [|exact Hget].
    destruct (expiresAt entry <=? clock w); [|discriminate]. simpl.
    apply Map_get_delete_same, Hwf. }
  split; [rewrite Hrun; reflexivity|].
  split; [exact Hcache|].
  split; [|split; [|split; [|split]]].
  - intros Hget. rewrite Hcache, (getFromCache_miss _ _ _ Hget). reflexivity.
  - intros entry Hget. rewrite Hcache. unfold getFromCache in *.
    fold key in Hmiss |- *. rewrite Hget in *.
    destruct (Z.leb_spec (expiresAt entry) (clock w)); [|discriminate].
    split; [assumption|reflexivity].
  - exact Hgone.
  - unfold w'. rewrite Hrun. reflexivity.
  - intros env2 token2 now Htoken2 Hne2.
    apply (getCityAqi_miss_requests env2 city
             {| cache := cache w'; clock := now; requests := requests w' |}
             token2); [|assumption..].
    simpl. rewrite (getFromCache_miss _ _ _ Hgone). reflexivity.
Qed.

Lemma getCityAqi_negative_not_stored_witness :
  let raw := JObj [("status", JStr "error"); ("data", JStr "Unknown station")] in
  let env := provider_of (Some "demo") raw in
  let w := {| cache := [("pune", {| data := bare_record "Pune";
                                   expiresAt := 300000;
                                   lastAccessed := 0 |})];
              clock := 1000; requests := [] |} in
  fst (getCityAqi env "Delhi" w) = Return None
  /\ cache (snd (getCityAqi env "Delhi" w)) = cache w.
Proof.
  intros raw env w.
  assert (Hwf : Map_wf (cache w)) by (apply NoDup_singleton).
  destruct (getCityAqi_negative_not_stored env "Delhi" w "demo"
              {| status := 200; statusText := "OK"; body := Some raw |} raw
              Hwf)
    as (Hrun & _ & Hsame & _); try reflexivity; try discriminate.
  split; [exact Hrun|]. apply Hsame. reflexivity.
Defined.

(** ** The measurements of a normalised record *)

Section Measurements.

Lemma reading_Some (val : json) (v : float) :
  reading val = Some v <-> get val "v" = Some (JNum v).
Proof.
  unfold reading. split.
  - destruct (truthy (Some val)); [|discriminate].
    destruct (get val "v") as [[]|]; congruence.
  - intros Hv. destruct val; try discriminate. simpl in *. rewrite Hv.
    reflexivity.
Qed.

(** An entry of the map under construction was there before, or comes
    from one of the pairs gone through. *)
Lemma fold_add_measurement (entries : list (string * json))
    (acc : gmap string Measurement.t) (code : string) (m : Measurement.t) :
  fold_left add_measurement entries acc !! code = Some m ->
  acc !! code = Some m
  \/ exists key val v,
       (key, val) ∈ entries /\ toLowerCase key = code
       /\ get val "v" = Some (JNum v)
       /\ m = {| Measurement.value := Some v;
                 Measurement.label := pollutantLabel code;
                 Measurement.unit := "µg/m³" |}.
Proof.
  revert acc. induction entries as [|[key val] entries IH]; simpl.
  - intros acc H. left. exact H.
  - intros acc H. destruct (IH _ H) as [Hacc|(k & x & v & Hin & ?)].
    + unfold set_property in Hacc.
      destruct (reading val) as [v|] eqn:Hread; [|left; exact Hacc].
      destruct (toLowerCase key =? "__proto__")%string; [left; exact Hacc|].
      destruct (decide (toLowerCase key = code)) as [Hcode|Hcode].
      * right. exists key, val, v. rewrite Hcode in Hacc.
        rewrite lookup_insert_eq in Hacc.
        split; [apply list_elem_of_here|]. split; [exact Hcode|].
        split; [apply reading_Some, Hread|]. congruence.
      * left. rewrite lookup_insert_ne in Hacc by exact Hcode. exact Hacc.
    + right. exists k, x, v. split; [right; exact Hin|assumption].
Qed.

End Measurements.

(** C7. In a record that the normaliser makes, every entry of
    [measurements] has a number for value.  It comes from a pair of
    [iaqi] whose key, lower-cased, is its code, and whose value has a
    numeric [v], which is the value of the entry; its label is the label
    of the code, and its unit is "µg/m³".  A code of which no pair has
    a numeric [v] has no entry.  The labels of pm25, pm10, o3, no2, so2
    and co are fixed, and the label of any other code is the code in
    upper case. *)
Theorem normalizeAqicnResponse_measurements
    (raw : json) (cityQuery : string) (r : AqiRecord) :
  normalizeAqicnResponse raw cityQuery = Some r ->
  (forall code m,
     measurements r !! code = Some m ->
     exists d iaqi key val v,
       get raw "data" = Some d /\ get d "iaqi" = Some iaqi
       /\ (key, val) ∈ Object_entries iaqi
       /\ toLowerCase key = code
       /\ get val "v" = Some (JNum v)
       /\ Measurement.value m = Some v
       /\ Measurement.label m = pollutantLabel code
       /\ Measurement.unit m = "µg/m³")
  /\ (forall code,
        (forall d iaqi key val v,
           get raw "data" = Some d -> get d "iaqi" = Some iaqi ->
           (key, val) ∈ Object_entries iaqi -> toLowerCase key = code ->
           get val "v" <> Some (JNum v)) ->
        measurements r !! code = None)
  /\ pollutantLabel "pm25" = "PM2.5 (fine particulate matter)"
  /\ pollutantLabel "pm10" = "PM10 (coarse particulate matter)"
  /\ pollutantLabel "o3" = "Ozone (O₃)"
  /\ pollutantLabel "no2" = "Nitrogen Dioxide (NO₂)"
  /\ pollutantLabel "so2" = "Sulfur Dioxide (SO₂)"
  /\ pollutantLabel "co" = "Carbon Monoxide (CO)"
  /\ (forall code,
        code ∉ ["pm25"; "pm10"; "o3"; "no2"; "so2"; "co"] ->
        pollutantLabel code = toUpperCase code).
Proof.
  intros Hnorm.
  assert (Hsource : forall code m,
     measurements r !! code = Some m ->
     exists d iaqi key val v,
       get raw "data" = Some d /\ get d "iaqi" = Some iaqi
       /\ (key, val) ∈ Object_entries iaqi
       /\ toLowerCase key = code
       /\ get val "v" = Some (JNum v)
       /\ Measurement.value m = Some v
       /\ Measurement.label m = pollutantLabel code
       /\ Measurement.unit m = "µg/m³").
  { intros code m Hm. unfold normalizeAqicnResponse in Hnorm.
    destruct (_ || _ || _); [discriminate|].
    destruct (get raw "data") as [d|]; [|discriminate].
    injection Hnorm as <-. simpl in Hm.
    destruct (truthy (get d "iaqi")) eqn:Ht;
      [|rewrite lookup_empty in Hm; discriminate].
    destruct (get d "iaqi") as [iaqi|] eqn:Hi; [|discriminate Ht].
    apply fold_add_measurement in Hm
      as [Hm|(key & val & v & Hin & Hcode & Hv & ->)].
    { rewrite lookup_empty in Hm. discriminate. }
    exists d, iaqi, key, val, v.
    repeat split; try assumption; reflexivity. }
  split; [exact Hsource|]. split.
  - intros code Hskip.
    destruct (measurements r !! code) as [m|] eqn:Hm; [|reflexivity].
    destruct (Hsource code m Hm)
      as (d & iaqi & key & val & v & Hd & Hi & Hin & Hcode & Hv & _).
    exfalso. exact (Hskip d iaqi key val v Hd Hi Hin Hcode Hv).
  - repeat split; try reflexivity.
    intros code Hcode. unfold pollutantLabel.
    repeat (match goal with
            | |- context [String.eqb code ?s] =>
                destruct (String.eqb_spec code s) as [->|_];
                [exfalso; apply Hcode; set_solver|]
            end).
    reflexivity.
Qed.

Lemma normalizeAqicnResponse_measurements_witness :
  let raw :=
    JObj [("status", JStr "ok");
          ("data", JObj [("aqi", JNum 164);
                         ("iaqi", JObj [("pm25", JObj [("v", JNum 89)]);
                                        ("t", JObj [("v", JStr "n/a")]);
                                        ("H", JObj [("v", JNum 40)])]);
                         ("dominentpol", JStr "pm25")])] in
  exists r,
    normalizeAqicnResponse raw "delhi" = Some r
    /\ measurements r !! "t" = None
    /\ (forall code m, measurements r !! code = Some m ->
          exists v, Measurement.value m = Some v
                    /\ Measurement.label m = pollutantLabel code
                    /\ Measurement.unit m = "µg/m³").
Proof.
  intros raw.
  destruct (normalizeAqicnResponse raw "delhi") as [r|] eqn:Hnorm;
    [|vm_compute in Hnorm; discriminate].
  destruct (normalizeAqicnResponse_measurements raw "delhi" r Hnorm)
    as (Hsource & Hskip & _).
  exists r. split; [reflexivity|]. split.
  - apply Hskip. intros d iaqi key val v Hd Hi Hin Hcode Hv.
    vm_compute in Hd. injection Hd as Ed. rewrite <- Ed in Hi.
    vm_compute in Hi. injection Hi as Ei. rewrite <- Ei in Hin. simpl in Hin.
    rewrite !elem_of_cons, elem_of_nil in Hin.
    destruct Hin as [Hin|[Hin|[Hin|[]]]]; injection Hin as Hk Hval;
      subst key val; discriminate.
  - intros code m Hm.
    destruct (Hsource code m Hm)
      as (d & iaqi & key & val & v & _ & _ & _ & _ & _ & Hv & Hl & Hu).
    exists v. auto.
Defined.

(** * Further properties *)

(** ** The key of a city is canonical *)

Section CanonicalKey.

Lemma lower_char_idem (c : ascii) : lower_char (lower_char c) = lower_char c.
Proof. destruct c as [[] [] [] [] [] [] [] []]; reflexivity. Qed.

Lemma toLowerCase_idem (s : string) : toLowerCase (toLowerCase s) = toLowerCase s.
Proof.
  induction s as [|c r IH]; simpl; [reflexivity|].
  rewrite lower_char_idem, IH. reflexivity.
Qed.

Lemma toLowerCase_empty (s : string) : toLowerCase s = EmptyString <-> s = EmptyString.
Proof. destruct s; simpl; split; congruence. Qed.

Lemma trimEnd_cons_solid (c : ascii) (r : string) :
  is_whitespace c = false -> trimEnd (String c r) = String c (trimEnd r).
Proof. intros Hc. simpl. rewrite Hc. destruct (trimEnd r); reflexivity. Qed.

Lemma trimEnd_cons (c : ascii) (r : string) :
  trimEnd (String c r)
  = match trimEnd r with
    | EmptyString =>
        if is_whitespace c then EmptyString else String c EmptyString
    | r' => String c r'
    end.
Proof. reflexivity. Qed.

Lemma trimEnd_idem (s : string) : trimEnd (trimEnd s) = trimEnd s.
Proof.
  induction s as [|c r IH]; [reflexivity|].
  rewrite (trimEnd_cons c r).
  destruct (trimEnd r) as [|c' r'] eqn:Hr.
  - destruct (is_whitespace c) eqn:Hc; [reflexivity|].
    rewrite trimEnd_cons. simpl. rewrite Hc. reflexivity.
  - rewrite trimEnd_cons, IH. reflexivity.
Qed.

(** What [trimStart] returns is empty or starts with a character that
    is not white space. *)
Lemma trimStart_head (s : string) :
  trimStart s = EmptyString
  \/ exists c r, trimStart s = String c r /\ is_whitespace c = false.
Proof.
  induction s as [|c r IH]; simpl; [left; reflexivity|].
  destruct (is_whitespace c) eqn:Hc; [exact IH|].
  right. exists c, r. split; [reflexivity|exact Hc].
Qed.

Lemma trimStart_trim (s : string) : trimStart (trim s) = trim s.
Proof.
  unfold trim. destruct (trimStart_head s) as [->|(c & r & -> & Hc)];
    [reflexivity|].
  rewrite (trimEnd_cons_solid _ _ Hc). simpl. rewrite Hc. reflexivity.
Qed.

Lemma trim_idem (s : string) : trim (trim s) = trim s.
Proof.
  unfold trim at 1. rewrite trimStart_trim. unfold trim.
  apply trimEnd_idem.
Qed.

Lemma trim_blank (s : string) : trim s = EmptyString <-> padding s = true.
Proof.
  split.
  - unfold trim. induction s as [|c r IH]; simpl; [reflexivity|].
    destruct (is_whitespace c) eqn:Hc; simpl; [exact IH|].
    rewrite Hc. destruct (trimEnd r); discriminate.
  - intros Hs. unfold trim. rewrite (trimStart_padding _ Hs). reflexivity.
Qed.

Lemma normalizeCityKey_blank (city : string) :
  normalizeCityKey city = EmptyString <-> padding city = true.
Proof. unfold normalizeCityKey. rewrite toLowerCase_empty. apply trim_blank. Qed.

End CanonicalKey.

Section AsciiKey.

Lemma ascii_lower_char (c : ascii) :
  ascii_char c = true -> ascii_char (lower_char c) = true.
Proof. destruct c as [[] [] [] [] [] [] [] []]; intros H; exact H || reflexivity. Qed.

Lemma ascii_only_toLowerCase (s : string) :
  ascii_only s = true -> ascii_only (toLowerCase s) = true.
Proof.
  induction s as [|c r IH]; simpl; [reflexivity|].
  intros H. apply andb_true_iff in H as [Hc Hr].
  rewrite (ascii_lower_char c Hc), (IH Hr). reflexivity.
Qed.

Lemma ascii_only_trimStart (s : string) :
  ascii_only s = true -> ascii_only (trimStart s) = true.
Proof.
  induction s as [|c r IH]; simpl; [reflexivity|].
  intros H. destruct (is_whitespace c); [|exact H].
  apply andb_true_iff in H as [_ Hr]. exact (IH Hr).
Qed.

Lemma ascii_only_trimEnd (s : string) :
  ascii_only s = true -> ascii_only (trimEnd s) = true.
Proof.
  induction s as [|c r IH]; simpl; [reflexivity|].
  intros H. apply andb_true_iff in H as [Hc Hr]. specialize (IH Hr).
  destruct (trimEnd r) as [|c' r'].
  - destruct (is_whitespace c); [reflexivity|]. simpl. rewrite Hc. reflexivity.
  - cbn [ascii_only]. rewrite Hc. exact IH.
Qed.

Lemma ascii_only_normalizeCityKey (city : string) :
  ascii_only city = true -> ascii_only (normalizeCityKey city) = true.
Proof.
  intros H. unfold normalizeCityKey, trim.
  apply ascii_only_toLowerCase, ascii_only_trimEnd, ascii_only_trimStart, H.
Qed.

End AsciiKey.

(** X1. The key of a city of ASCII characters is in canonical form: it
    is made of ASCII characters; normalising it gives it back, so do
    trimming it and lower-casing it; and it is the empty string exactly
    when the city is blank (empty or white space only). *)
Theorem normalizeCityKey_canonical (city : string) :
  ascii_only city = true ->
  ascii_only (normalizeCityKey city) = true
  /\ normalizeCityKey (normalizeCityKey city) = normalizeCityKey city
  /\ trim (normalizeCityKey city) = normalizeCityKey city
  /\ toLowerCase (normalizeCityKey city) = normalizeCityKey city
  /\ (normalizeCityKey city = EmptyString <-> padding city = true).
Proof.
  intros Hascii. split; [apply ascii_only_normalizeCityKey, Hascii|].
  unfold normalizeCityKey.
  assert (Htrim : trim (toLowerCase (trim city)) = toLowerCase (trim city)).
  { rewrite <- toLowerCase_trim, trim_idem. reflexivity. }
  split; [rewrite Htrim; apply toLowerCase_idem|].
  split; [exact Htrim|]. split; [apply toLowerCase_idem|].
  apply normalizeCityKey_blank.
Qed.

Lemma normalizeCityKey_canonical_witness :
  normalizeCityKey "  New Delhi " = "new delhi"
  /\ normalizeCityKey (normalizeCityKey "  New Delhi ")
     = normalizeCityKey "  New Delhi ".
Proof.
  split; [reflexivity|].
  exact (proj1 (proj2 (normalizeCityKey_canonical "  New Delhi " eq_refl))).
Defined.

(** ** The classifier is monotone *)

Section Monotone.

Lemma leb_not_nan_r (x y : float) :
  (x <=? y)%float = true -> PrimFloat.is_nan y = false.
Proof.
  unfold PrimFloat.is_nan.
  rewrite FloatAxioms.leb_spec, FloatAxioms.eqb_spec. unfold SFleb, SFeqb.
  destruct (Prim2SF x) as [sx|sx| |sx mx ex],
           (Prim2SF y) as [sy|sy| |sy my ey]; simpl;
    try destruct sx; try destruct sy; simpl;
    try reflexivity; try discriminate.
  all: rewrite Z.compare_refl;
    change (Pos.compare_cont Eq my my) with (Pos.compare my my);
    rewrite Pos.compare_refl; reflexivity.
Qed.

(** With [a <= b <= lo <= hi], the test [a <= hi] succeeds. *)
Lemma leb_below (a b lo hi : float) :
  (a <=? b)%float = true -> (b <=? lo)%float = true ->
  (lo <=? hi)%float = true -> (a <=? hi)%float = true.
Proof. intros Hab Hb Hlo. eauto using leb_trans. Qed.

End Monotone.

(** X2. The classifier is monotone: of two numbers, the greater never
    gets the milder category. *)
Theorem getAqiCategory_monotone (a b : float) :
  (a <=? b)%float = true ->
  exists i j,
    severity (getAqiCategory (Some a)) = Some i
    /\ severity (getAqiCategory (Some b)) = Some j
    /\ (i <= j)%nat.
Proof.
  intros Hab. unfold getAqiCategory.
  rewrite (leb_not_nan _ _ Hab), (leb_not_nan_r _ _ Hab).
  destruct (a <=? 50)%float eqn:A1; [|
  destruct (a <=? 100)%float eqn:A2; [|
  destruct (a <=? 150)%float eqn:A3; [|
  destruct (a <=? 200)%float eqn:A4; [|
  destruct (a <=? 300)%float eqn:A5]]]];
  (destruct (b <=? 50)%float eqn:B1; [|
   destruct (b <=? 100)%float eqn:B2; [|
   destruct (b <=? 150)%float eqn:B3; [|
   destruct (b <=? 200)%float eqn:B4; [|
   destruct (b <=? 300)%float eqn:B5]]]]);
  try (eexists _, _; split; [reflexivity|split; [reflexivity|lia]]);
  exfalso;
  repeat match goal with
         | Ha : (a <=? ?hi)%float = false, Hb : (b <=? ?lo)%float = true |- _ =>
             first [ rewrite (leb_below a b lo hi Hab Hb eq_refl) in Ha;
                     discriminate
                   | clear Ha ]
         end.
Qed.

Lemma getAqiCategory_monotone_witness :
  exists i j,
    severity (getAqiCategory (Some 42%float)) = Some i
    /\ severity (getAqiCategory (Some 180%float)) = Some j
    /\ (i <= j)%nat.
Proof. apply getAqiCategory_monotone. reflexivity. Defined.

(** ** Which reading a pollutant gets *)

Section LastReading.

Lemma add_measurement_lookup (acc : gmap string Measurement.t)
    (key : string) (val : json) (code : string) :
  add_measurement acc (key, val) !! code
  = if String.eqb code "__proto__" then acc !! code
    else if String.eqb (toLowerCase key) code then
           match reading val with
           | Some v => Some (measurement_of code v)
           | None => acc !! code
           end
         else acc !! code.
Proof.
  unfold add_measurement, set_property, measurement_of.
  destruct (reading val) as [v|].
  - destruct (String.eqb_spec (toLowerCase key) code) as [Heq|Hne].
    + rewrite Heq.
      destruct (String.eqb code "__proto__"); [reflexivity|].
      apply lookup_insert_eq.
    + destruct (String.eqb (toLowerCase key) "__proto__");
        [|rewrite lookup_insert_ne by exact Hne];
        destruct (String.eqb code "__proto__"); reflexivity.
  - destruct (String.eqb code "__proto__"),
             (String.eqb (toLowerCase key) code); reflexivity.
Qed.

Lemma fold_add_measurement_lookup (entries : list (string * json))
    (acc : gmap string Measurement.t) (code : string) :
  fold_left add_measurement entries acc !! code
  = if String.eqb code "__proto__" then acc !! code
    else match last_reading entries code with
         | Some v => Some (measurement_of code v)
         | None => acc !! code
         end.
Proof.
  revert acc. induction entries as [|[key val] entries IH]; intros acc;
    cbn [fold_left last_reading].
  - destruct (String.eqb code "__proto__"); reflexivity.
  - rewrite IH, add_measurement_lookup.
    destruct (String.eqb code "__proto__"); [reflexivity|].
    destruct (last_reading entries code); [reflexivity|].
    destruct (String.eqb (toLowerCase key) code); [|reflexivity].
    destruct (reading val); reflexivity.
Qed.

End LastReading.

(** X3. The measurements of a normalised record, code by code: a code
    has an entry exactly when some pair of [iaqi] has that code for
    lower-cased key and a numeric [v], and the entry is made of the
    reading of the last such pair (a later pair replaces an earlier one
    whose key differs by case only); there is never an entry under
    [__proto__], and there is none at all without a truthy [iaqi]. *)
Theorem normalizeAqicnResponse_last_reading
    (raw : json) (cityQuery : string) (r : AqiRecord) (d : json)
    (code : string) :
  normalizeAqicnResponse raw cityQuery = Some r ->
  get raw "data" = Some d ->
  measurements r !! code
  = if String.eqb code "__proto__" then None
    else if truthy (get d "iaqi") then
           match get d "iaqi" with
           | Some iaqi =>
               measurement_of code <$> last_reading (Object_entries iaqi) code
           | None => None
           end
         else None.
Proof.
  intros Hnorm Hd. unfold normalizeAqicnResponse in Hnorm.
  destruct (_ || _ || _); [discriminate|]. rewrite Hd in Hnorm.
  injection Hnorm as <-. simpl.
  destruct (truthy (get d "iaqi")).
  - destruct (get d "iaqi") as [iaqi|].
    + rewrite fold_add_measurement_lookup, lookup_empty.
      destruct (String.eqb code "__proto__"); [reflexivity|].
      destruct (last_reading _ _); reflexivity.
    + rewrite lookup_empty. destruct (String.eqb code "__proto__"); reflexivity.
  - rewrite lookup_empty. destruct (String.eqb code "__proto__"); reflexivity.
Qed.

Lemma normalizeAqicnResponse_last_reading_witness :
  let iaqi := JObj [("PM25", JObj [("v", JNum 12)]);
                    ("pm25", JObj [("v", JNum 89)]);
                    ("Pm25", JObj [("v", JNull)]);
                    ("__proto__", JObj [("v", JNum 1)])] in
  let d := JObj [("iaqi", iaqi)] in
  let raw := JObj [("status", JStr "ok"); ("data", d)] in
  exists r,
    normalizeAqicnResponse raw "delhi" = Some r
    /\ measurements r !! "pm25" = Some (measurement_of "pm25" 89)
    /\ measurements r !! "__proto__" = None.
Proof.
  intros iaqi d raw.
  destruct (normalizeAqicnResponse raw "delhi") as [r|] eqn:Hnorm;
    [|vm_compute in Hnorm; discriminate].
  exists r. split; [reflexivity|]. split.
  - rewrite (normalizeAqicnResponse_last_reading raw "delhi" r d "pm25" Hnorm
               eq_refl). reflexivity.
  - rewrite (normalizeAqicnResponse_last_reading raw "delhi" r d "__proto__"
               Hnorm eq_refl). reflexivity.
Defined.

(** ** When the normaliser gives up *)

(** X4. The normaliser returns [null] exactly when [raw.status] is not
    the string "ok" or [raw.data] is falsy; a missing [aqi], [iaqi],
    [city] or [time] never makes it give up.  The record it returns
    echoes the query, carries no [meta.cache], has for [aqi.value] the
    number [data.aqi] or else [null], and for category that of this
    value. *)
Theorem normalizeAqicnResponse_null_iff (raw : json) (cityQuery : string) :
  (normalizeAqicnResponse raw cityQuery = None
   <-> get raw "status" <> Some (JStr "ok")
       \/ truthy (get raw "data") = false)
  /\ (forall r,
        normalizeAqicnResponse raw cityQuery = Some r ->
        query r = cityQuery
        /\ Meta.cache (meta r) = None
        /\ Aqi.category (aqi r) = getAqiCategory (Aqi.value (aqi r))
        /\ exists d,
             get raw "data" = Some d
             /\ Aqi.value (aqi r)
                = match get d "aqi" with
                  | Some (JNum n) => Some n
                  | _ => None
                  end).
Proof.
  split.
  - unfold normalizeAqicnResponse.
    destruct (is_string (get raw "status") "ok") eqn:Hstatus.
    + assert (Hraw : truthy (Some raw) = true).
      { destruct raw; try discriminate Hstatus. reflexivity. }
      apply is_string_true in Hstatus. rewrite Hraw. cbn [negb orb].
      destruct (truthy (get raw "data")) eqn:Hdata; cbn [negb].
      * destruct (get raw "data"); [|discriminate Hdata].
        split; [discriminate|]. intros [H|H]; congruence.
      * split; [right; reflexivity|reflexivity].
    + rewrite orb_true_r. cbn [orb]. split; [|reflexivity].
      intros _. left. intros H. apply is_string_true in H. congruence.
  - intros r Hnorm. unfold normalizeAqicnResponse in Hnorm.
    destruct (_ || _ || _); [discriminate|].
    destruct (get raw "data") as [d|]; [|discriminate].
    injection Hnorm as <-. cbn.
    split; [reflexivity|]. split; [reflexivity|]. split; [reflexivity|].
    exists d. split; reflexivity.
Qed.

(** ** Storing and looking up *)

Section StoreLookup.
Implicit Types (c : Cache) (e : CacheEntry).

Lemma Map_first_key_get {V} (m : list (string * V)) k :
  Map_first_key m = Some k -> Map_get m k <> None.
Proof.
  destruct m as [|[k0 v0] m]; simpl; [discriminate|].
  intros [= ->]. rewrite String.eqb_refl. discriminate.
Qed.

Lemma Map_get_delete_None {V} (m : list (string * V)) k k' :
  Map_get m k' = None -> Map_get (Map_delete m k) k' = None.
Proof.
  intros Hnone. destruct (decide (k = k')) as [->|Hne].
  - rewrite (Map_delete_absent _ _ Hnone). exact Hnone.
  - rewrite Map_get_delete_other by exact Hne. exact Hnone.
Qed.

Lemma Map_set_present_keys {V} (m : list (string * V)) k v v0 :
  Map_get m k = Some v0 -> map fst (Map_set m k v) = map fst m.
Proof.
  induction m as [|[k1 v1] m IH]; simpl; [discriminate|].
  destruct (String.eqb k k1); simpl; [reflexivity|].
  intros H. rewrite (IH H). reflexivity.
Qed.

(** In a cache within its capacity, the entry that [setInCache] makes
    is not the one it evicts. *)
Lemma setInCache_stored now city d c :
  Map_wf c -> (Map_size c <= MAX_CACHE_ENTRIES)%nat ->
  Map_get (setInCache now city d c) (normalizeCityKey city)
  = Some {| data := d; expiresAt := now + CACHE_TTL_MS; lastAccessed := now |}.
Proof.
  intros Hwf Hsize. unfold setInCache, evictIfNeeded.
  set (key := normalizeCityKey city).
  set (entry := {| data := d; expiresAt := _; lastAccessed := _ |}).
  pose proof (Map_get_set_same c key entry) as Hset.
  destruct (Nat.leb_spec (Map_size (Map_set c key entry)) MAX_CACHE_ENTRIES)
    as [_|Hfull]; [exact Hset|].
  destruct (Map_get c key) as [e0|] eqn:Hget.
  { rewrite (Map_size_set_present _ _ _ _ Hget) in Hfull. lia. }
  destruct c as [|[k0 e0] rest].
  { unfold MAX_CACHE_ENTRIES in Hfull. simpl in Hfull. lia. }
  rewrite Map_first_key_set by discriminate. cbn [Map_first_key].
  destruct (negb (k0 =? "")%string); [|exact Hset].
  rewrite Map_get_delete_other; [exact Hset|].
  intros ->. simpl in Hget. rewrite String.eqb_refl in Hget. discriminate.
Qed.

Lemma getFromCache_size now city c :
  (Map_size (snd (getFromCache now city c)) <= Map_size c)%nat.
Proof.
  unfold getFromCache.
  destruct (Map_get c (normalizeCityKey city)) as [entry|] eqn:Hget;
    [|simpl; lia].
  pose proof (Map_size_delete _ _ _ Hget) as Hdel.
  destruct (expiresAt entry <=? now); simpl; [lia|].
  match goal with
  | |- (Map_size (Map_set ?m ?k ?v) <= _)%nat =>
      pose proof (Map_size_set_le m k v)
  end. lia.
Qed.

Lemma getFromCache_other now city c k :
  k <> normalizeCityKey city ->
  Map_get (snd (getFromCache now city c)) k = Map_get c k.
Proof.
  intros Hne. unfold getFromCache.
  destruct (Map_get c (normalizeCityKey city)) as [entry|]; [|reflexivity].
  destruct (expiresAt entry <=? now); simpl.
  - apply Map_get_delete_other. congruence.
  - rewrite Map_get_set_other, Map_get_delete_other by congruence.
    reflexivity.
Qed.

Lemma getFromCache_no_new_key now city c k :
  Map_get c k = None -> Map_get (snd (getFromCache now city c)) k = None.
Proof.
  intros Hnone. destruct (decide (k = normalizeCityKey city)) as [->|Hne].
  - rewrite (getFromCache_miss _ _ _ Hnone). exact Hnone.
  - rewrite getFromCache_other by exact Hne. exact Hnone.
Qed.

End StoreLookup.

(** X5. What is stored is found again.  In a cache within its capacity,
    after [setInCache] for a city, a lookup of the city under any
    spelling with the same key returns the record stored as long as the
    clock is before [now + CACHE_TTL_MS], and [null] from then on. *)
Theorem setInCache_getFromCache
    (now now' : Z) (city city' : string) (d : AqiRecord) (c : Cache) :
  Map_wf c -> (Map_size c <= MAX_CACHE_ENTRIES)%nat ->
  normalizeCityKey city' = normalizeCityKey city ->
  (now' < now + CACHE_TTL_MS ->
     fst (getFromCache now' city' (setInCache now city d c)) = Some d)
  /\ (now + CACHE_TTL_MS <= now' ->
        fst (getFromCache now' city' (setInCache now city d c)) = None).
Proof.
  intros Hwf Hsize Hkey.
  pose proof (setInCache_stored now city d c Hwf Hsize) as Hget.
  rewrite <- Hkey in Hget. split; intros Htime.
  - rewrite (getFromCache_hit now' city' _ _ (setInCache_wf _ _ _ _ Hwf) Hget)
      by exact Htime. reflexivity.
  - rewrite (getFromCache_expired now' city' _ _ Hget) by exact Htime.
    reflexivity.
Qed.

Lemma setInCache_getFromCache_witness :
  let c := setInCache 1000 " New Delhi" (bare_record "New Delhi") [] in
  fst (getFromCache 300999 "new delhi " c) = Some (bare_record "New Delhi")
  /\ fst (getFromCache 301000 "new delhi " c) = None.
Proof.
  intros c.
  destruct (setInCache_getFromCache 1000 300999 " New Delhi" "new delhi "
              (bare_record "New Delhi") []) as [Hlive _];
    [constructor|unfold Map_size, MAX_CACHE_ENTRIES; simpl; lia|reflexivity|].
  destruct (setInCache_getFromCache 1000 301000 " New Delhi" "new delhi "
              (bare_record "New Delhi") []) as [_ Hdead];
    [constructor|unfold Map_size, MAX_CACHE_ENTRIES; simpl; lia|reflexivity|].
  split; [apply Hlive|apply Hdead]; unfold CACHE_TTL_MS; lia.
Defined.

(** X6. A lookup touches the entry of its own key only: the entry of
    every other key is as it was, no key appears, and the cache does
    not grow. *)
Theorem getFromCache_frame (now : Z) (city : string) (c : Cache) :
  (forall k, k <> normalizeCityKey city ->
     Map_get (snd (getFromCache now city c)) k = Map_get c k)
  /\ (forall k, Map_get c k = None ->
        Map_get (snd (getFromCache now city c)) k = None)
  /\ (Map_size (snd (getFromCache now city c)) <= Map_size c)%nat.
Proof.
  split; [|split].
  - intros k Hne. apply getFromCache_other, Hne.
  - intros k Hnone. apply getFromCache_no_new_key, Hnone.
  - apply getFromCache_size.
Qed.

(** ** What a store changes *)

Section StoreFrame.
Implicit Types (c : Cache) (e : CacheEntry).

Lemma evictIfNeeded_no_new_key c k :
  Map_get c k = None -> Map_get (evictIfNeeded c) k = None.
Proof.
  intros Hnone. unfold evictIfNeeded.
  destruct (Map_size c <=? MAX_CACHE_ENTRIES)%nat; [exact Hnone|].
  destruct (Map_first_key c) as [k0|]; [|exact Hnone].
  destruct (negb (k0 =? "")%string); [|exact Hnone].
  apply Map_get_delete_None, Hnone.
Qed.

Lemma getFromCache_ok now city c : cache_ok c -> cache_ok (snd (getFromCache now city c)).
Proof.
  intros (Hwf & Hsize & Hblank). split; [|split].
  - apply getFromCache_wf, Hwf.
  - pose proof (getFromCache_size now city c). lia.
  - apply getFromCache_no_new_key, Hblank.
Qed.

Lemma setInCache_ok now city d c :
  padding city = false -> cache_ok c -> cache_ok (setInCache now city d c).
Proof.
  intros Hcity (Hwf & Hsize & Hblank).
  assert (Hkey : normalizeCityKey city <> "").
  { intros Hk. apply normalizeCityKey_blank in Hk. congruence. }
  split; [|split].
  - apply setInCache_wf, Hwf.
  - apply setInCache_size; [|exact Hsize].
    intros Hfirst. apply Map_first_key_get in Hfirst. contradiction.
  - unfold setInCache. apply evictIfNeeded_no_new_key.
    rewrite Map_get_set_other by exact Hkey. exact Hblank.
Qed.

Lemma Map_get_app {V} (m1 m2 : list (string * V)) k :
  Map_get (m1 ++ m2)%list k
  = match Map_get m1 k with
    | Some v => Some v
    | None => Map_get m2 k
    end.
Proof.
  induction m1 as [|[k1 v1] m1 IH]; simpl; [reflexivity|].
  destruct (String.eqb k k1); [reflexivity|exact IH].
Qed.

End StoreFrame.

(** X7. A store changes the entry of its own key and, at most, evicts
    the oldest entry: the entry of any other key is as it was, unless
    that key was the first of a cache that was full, in which case it
    is gone. *)
Theorem setInCache_frame
    (now : Z) (city : string) (d : AqiRecord) (c : Cache) (k : string) :
  Map_wf c ->
  k <> normalizeCityKey city ->
  Map_get (setInCache now city d c) k = Map_get c k
  \/ (Map_get (setInCache now city d c) k = None
      /\ Map_first_key c = Some k
      /\ (MAX_CACHE_ENTRIES <= Map_size c)%nat).
Proof.
  intros Hwf Hne. unfold setInCache, evictIfNeeded.
  set (key := normalizeCityKey city) in *.
  set (entry := {| data := d; expiresAt := _; lastAccessed := _ |}).
  assert (Hother : Map_get (Map_set c key entry) k = Map_get c k)
    by (apply Map_get_set_other; congruence).
  destruct (Nat.leb_spec (Map_size (Map_set c key entry)) MAX_CACHE_ENTRIES)
    as [_|Hfull]; [left; exact Hother|].
  destruct c as [|[k0 e0] rest].
  { unfold MAX_CACHE_ENTRIES in Hfull. simpl in Hfull. lia. }
  rewrite Map_first_key_set by discriminate. cbn [Map_first_key].
  destruct (negb (k0 =? "")%string); [|left; exact Hother].
  destruct (decide (k0 = k)) as [->|Hk0].
  - right. split; [|split].
    + apply Map_get_delete_same, Map_set_wf, Hwf.
    + reflexivity.
    + pose proof (Map_size_set_le ((k, e0) :: rest) key entry). lia.
  - left. rewrite Map_get_delete_other by exact Hk0. exact Hother.
Qed.

Lemma setInCache_frame_witness :
  let c := [("pune", {| data := bare_record "Pune";
                        expiresAt := 300000; lastAccessed := 0 |})] in
  Map_get (setInCache 1000 "Delhi" (bare_record "Delhi") c) "pune"
  = Map_get c "pune".
Proof.
  intros c.
  destruct (setInCache_frame 1000 "Delhi" (bare_record "Delhi") c "pune")
    as [Hsame|(_ & _ & Hfull)];
    [apply NoDup_singleton|discriminate|exact Hsame|].
  unfold MAX_CACHE_ENTRIES, Map_size in Hfull. simpl in Hfull. lia.
Defined.

(** X8. Storing again a city that is in the cache replaces its entry
    where it stands: nothing is evicted, and the order of the keys,
    hence the order of eviction, is what it was. *)
Theorem setInCache_in_place
    (now : Z) (city : string) (d : AqiRecord) (c : Cache) (e0 : CacheEntry) :
  (Map_size c <= MAX_CACHE_ENTRIES)%nat ->
  Map_get c (normalizeCityKey city) = Some e0 ->
  map fst (setInCache now city d c) = map fst c
  /\ Map_get (setInCache now city d c) (normalizeCityKey city)
     = Some {| data := d; expiresAt := now + CACHE_TTL_MS;
               lastAccessed := now |}
  /\ (forall k, k <> normalizeCityKey city ->
        Map_get (setInCache now city d c) k = Map_get c k).
Proof.
  intros Hsize Hget. unfold setInCache, evictIfNeeded.
  rewrite (Map_size_set_present _ _ _ _ Hget).
  destruct (Nat.leb_spec (Map_size c) MAX_CACHE_ENTRIES) as [_|]; [|lia].
  split; [|split].
  - eapply Map_set_present_keys, Hget.
  - apply Map_get_set_same.
  - intros k Hne. apply Map_get_set_other. congruence.
Qed.

Lemma setInCache_in_place_witness :
  let entry t := {| data := bare_record "x"; expiresAt := t;
                    lastAccessed := 0 |} in
  let c := [("delhi", entry 300000); ("pune", entry 300500)] in
  map fst (setInCache 9000 "Delhi" (bare_record "Delhi") c)
  = ["delhi"; "pune"].
Proof.
  intros entry c.
  destruct (setInCache_in_place 9000 "Delhi" (bare_record "Delhi") c
              (entry 300000)) as [Hkeys _];
    [unfold MAX_CACHE_ENTRIES, Map_size; simpl; lia|reflexivity|].
  exact Hkeys.
Defined.

(** X9. A hit protects from the next eviction.  In a full cache, a hit
    on the oldest entry moves it to the end, so that the store of a new
    city evicts the second oldest entry instead and keeps the entry that
    was hit. *)
Theorem hit_then_store_evicts_next
    (now now' : Z) (hit_city city : string) (d : AqiRecord)
    (k0 k1 : string) (e0 e1 : CacheEntry) (rest : Cache) :
  let c := (k0, e0) :: (k1, e1) :: rest in
  Map_wf c ->
  Map_size c = MAX_CACHE_ENTRIES ->
  normalizeCityKey hit_city = k0 ->
  now < expiresAt e0 ->
  Map_get c (normalizeCityKey city) = None ->
  k1 <> "" ->
  setInCache now' city d (snd (getFromCache now hit_city c))
  = (rest
     ++ [(k0, {| data := data e0; expiresAt := expiresAt e0;
                 lastAccessed := now |});
         (normalizeCityKey city,
          {| data := d; expiresAt := now' + CACHE_TTL_MS;
             lastAccessed := now' |})])%list.
Proof.
  intros c Hwf Hsize Hk0 Hlive Hnew Hk1.
  assert (Hget : Map_get c (normalizeCityKey hit_city) = Some e0).
  { rewrite Hk0. unfold c. simpl. rewrite String.eqb_refl. reflexivity. }
  rewrite (getFromCache_hit now hit_city c e0 Hwf Hget Hlive). cbn [snd].
  rewrite Hk0. unfold c at 1. cbn [Map_delete]. rewrite String.eqb_refl.
  assert (Hne0 : normalizeCityKey city <> k0).
  { intros E. unfold c in Hnew. simpl in Hnew. rewrite E in Hnew.
    rewrite String.eqb_refl in Hnew. discriminate. }
  change (((k1, e1) :: rest) ++ ?l)%list with ((k1, e1) :: (rest ++ l))%list.
  rewrite setInCache_evicts_oldest.
  - rewrite <- app_assoc. reflexivity.
  - unfold Map_size in *. unfold c in Hsize. simpl in *.
    rewrite length_app. simpl. lia.
  - unfold c in Hnew. simpl in Hnew.
    destruct (String.eqb_spec (normalizeCityKey city) k0); [contradiction|].
    change ((k1, e1) :: rest ++ ?l)%list with (((k1, e1) :: rest) ++ l)%list.
    rewrite Map_get_app. simpl. rewrite Hnew.
    destruct (String.eqb_spec (normalizeCityKey city) k0);
      [contradiction|reflexivity].
  - exact Hk1.
Qed.

Lemma hit_then_store_evicts_next_witness :
  let c := numbered_cache 100 in
  setInCache 2000 "Pune" (bare_record "Pune") (snd (getFromCache 1000 "0" c))
  = (drop 2 c
     ++ [("0", {| data := bare_record "0"; expiresAt := 300000;
                  lastAccessed := 1000 |});
         ("pune", {| data := bare_record "Pune";
                     expiresAt := 2000 + CACHE_TTL_MS;
                     lastAccessed := 2000 |})])%list.
Proof.
  intros c.
  assert (Hwf : Map_wf c)
    by (apply (bool_decide_unpack _); vm_compute; exact I).
  assert (Hk1 : "1" <> "") by discriminate.
  assert (Hlive : 1000 < 300000) by reflexivity.
  exact (hit_then_store_evicts_next 1000 2000 "0" "Pune"
           (bare_record "Pune") "0" "1"
           {| data := bare_record "0"; expiresAt := 300000;
              lastAccessed := 0 |}
           {| data := bare_record "1"; expiresAt := 300000;
              lastAccessed := 0 |}
           (drop 2 c) Hwf eq_refl eq_refl Hlive eq_refl Hk1).
Defined.



(** ** Sound entries *)

Section SoundEntries.
Context {V : Type} (P : string * V -> Prop).
Implicit Types (m : list (string * V)).

Lemma Map_delete_Forall m k : Forall P m -> Forall P (Map_delete m k).
Proof.
  induction 1 as [|[k0 v0] m H0 Hm IH]; simpl; [constructor|].
  destruct (String.eqb k k0); [exact Hm|]. constructor; assumption.
Qed.

Lemma Map_set_Forall m k v : P (k, v) -> Forall P m -> Forall P (Map_set m k v).
Proof.
  intros Hkv. induction 1 as [|[k0 v0] m H0 Hm IH]; simpl.
  - repeat constructor. exact Hkv.
  - destruct (String.eqb_spec k k0) as [<-|_]; constructor; assumption.
Qed.

Lemma Map_get_Forall m k v : Forall P m -> Map_get m k = Some v -> P (k, v).
Proof.
  induction 1 as [|[k0 v0] m H0 Hm IH]; simpl; [discriminate|].
  destruct (String.eqb_spec k k0) as [->|_]; [|exact IH].
  intros [= <-]. exact H0.
Qed.

End SoundEntries.

Section SoundCache.
Implicit Types (c : Cache).

Lemma normalizeCityKey_idem (city : string) :
  normalizeCityKey (normalizeCityKey city) = normalizeCityKey city.
Proof.
  unfold normalizeCityKey.
  rewrite <- toLowerCase_trim, trim_idem. apply toLowerCase_idem.
Qed.

Lemma getFromCache_sound now city c :
  Forall entry_sound c -> Forall entry_sound (snd (getFromCache now city c)).
Proof.
  intros Hc. unfold getFromCache.
  destruct (Map_get c (normalizeCityKey city)) as [entry|] eqn:Hget;
    [|exact Hc].
  destruct (Z.leb_spec (expiresAt entry) now) as [_|Hlive]; simpl.
  - apply Map_delete_Forall, Hc.
  - apply Map_set_Forall; [|apply Map_delete_Forall, Hc].
    destruct (Map_get_Forall _ _ _ _ Hc Hget) as (_ & _ & Hmeta).
    split; [apply normalizeCityKey_idem|]. split; [exact Hlive|exact Hmeta].
Qed.

Lemma setInCache_sound now city d c :
  Meta.cache (meta d) = None ->
  Forall entry_sound c -> Forall entry_sound (setInCache now city d c).
Proof.
  intros Hd Hc. unfold setInCache, evictIfNeeded.
  match goal with
  | |- context [Map_set c ?k ?e] =>
      assert (Hset : Forall entry_sound (Map_set c k e))
  end.
  { apply Map_set_Forall; [|exact Hc].
    split; [apply normalizeCityKey_idem|]. split; [|exact Hd].
    simpl. unfold CACHE_TTL_MS. lia. }
  destruct (_ <=? _)%nat; [exact Hset|].
  destruct (Map_first_key _) as [k0|]; [|exact Hset].
  destruct (negb _); [apply Map_delete_Forall|]; exact Hset.
Qed.

Lemma normalizeAqicnResponse_plain raw cityQuery n :
  normalizeAqicnResponse raw cityQuery = Some n -> Meta.cache (meta n) = None.
Proof.
  unfold normalizeAqicnResponse. destruct (_ || _ || _); [discriminate|].
  destruct (get raw "data"); [|discriminate]. intros [= <-]. reflexivity.
Qed.

End SoundCache.

(** X11. The entries of the cache stay sound through any lookup: each
    key is a canonical key (normalising it gives it back), each entry
    was last accessed before it expires, and no stored record carries
    [meta.cache], which is added to the answers only. *)
Theorem getCityAqi_keeps_entries_sound
    (env : Env) (city : string) (w : World) :
  Forall entry_sound (cache w) ->
  Forall entry_sound (cache (snd (getCityAqi env city w))).
Proof.
  intros Hsound.
  pose proof (getFromCache_sound (clock w) city (cache w) Hsound) as Hlooked.
  unfold getCityAqi, getFromCache_now, Date_now, on_cache.
  unfold bind at 1 2 3.
  destruct (getFromCache (clock w) city (cache w)) as [[cached|] c1];
    cbn [fst snd] in *; [exact Hlooked|].
  destruct (AQICN_API_TOKEN env) as [token|]; [|exact Hlooked].
  destruct (String.eqb token ""); [exact Hlooked|].
  unfold bind at 1, await_fetch. cbn [cache clock requests].
  destruct (response _) as [resp|]; [|exact Hlooked].
  destruct (negb (ok resp)); [exact Hlooked|].
  unfold bind at 1, await_json.
  destruct (body resp) as [raw|]; [|exact Hlooked]. unfold ret at 1.
  unfold bind at 1.
  destruct (property raw "status" _) as [[st|e] w'] eqn:Hprop.
  2:{ destruct raw; try discriminate Hprop.
      injection Hprop as _ <-. exact Hlooked. }
  assert (Hw' : cache w' = c1).
  { destruct raw; injection Hprop as _ <-; reflexivity. }
  destruct (negb (is_string st "ok")); [cbn; rewrite Hw'; exact Hlooked|].
  destruct (normalizeAqicnResponse raw city) as [n|] eqn:Hnorm.
  - unfold setInCache_now, Date_now, on_cache, bind, ret. cbn.
    rewrite Hw'. apply setInCache_sound; [|exact Hlooked].
    eapply normalizeAqicnResponse_plain, Hnorm.
  - cbn. rewrite Hw'. exact Hlooked.
Qed.

Lemma getCityAqi_keeps_entries_sound_witness :
  Forall entry_sound
    (cache (snd (getCityAqi (provider_of (Some "demo") bare_document)
                   " Delhi"
                   {| cache := []; clock := 1000; requests := [] |}))).
Proof. apply getCityAqi_keeps_entries_sound. constructor. Defined.

(** ** The paths of a lookup *)

Section Paths.
Implicit Types (env : Env) (w : World) (city : string).

(** After a miss, with a token, the call follows the answer of the
    network. *)
Lemma getCityAqi_after_miss env city w token :
  fst (getFromCache (clock w) city (cache w)) = None ->
  AQICN_API_TOKEN env = Some token -> token <> "" ->
  getCityAqi env city w
  = match response (fetch env (feed_url city token)) with
    | None => (Throw FetchError, answered env city token w)
    | Some resp =>
        if negb (ok resp) then
          (Throw (RequestFailed (status resp) (statusText resp)),
           answered env city token w)
        else
          match body resp with
          | None => (Throw InvalidJson, answered env city token w)
          | Some JNull => (Throw (TypeError "status"), answered env city token w)
          | Some raw =>
              if negb (is_string (get raw "status") "ok") then
                (Return None, answered env city token w)
              else
                match normalizeAqicnResponse raw city with
                | None => (Throw (TypeError "meta"), answered env city token w)
                | Some n =>
                    (Return (Some (with_cache_info false n)),
                     stored env city token n w)
                end
          end
    end.
Proof.
  intros Hmiss Htoken Hne.
  destruct (response (fetch env (feed_url city token))) as [resp|] eqn:Hresp.
  2:{ unfold getCityAqi, getFromCache_now, Date_now, on_cache, await_fetch.
      unfold bind at 1 2 3.
      destruct (getFromCache (clock w) city (cache w)) as [r c1] eqn:Hlook.
      simpl in Hmiss. subst r. cbn [fst snd]. rewrite Htoken.
      destruct (String.eqb_spec token "") as [|_]; [contradiction|].
      unfold bind at 1. cbn [cache clock requests]. rewrite Hresp.
      unfold answered. rewrite Hlook. reflexivity. }
  destruct (ok resp) eqn:Hok; cbn [negb].
  2:{ unfold getCityAqi, getFromCache_now, Date_now, on_cache, await_fetch.
      unfold bind at 1 2 3.
      destruct (getFromCache (clock w) city (cache w)) as [r c1] eqn:Hlook.
      simpl in Hmiss. subst r. cbn [fst snd]. rewrite Htoken.
      destruct (String.eqb_spec token "") as [|_]; [contradiction|].
      unfold bind at 1. cbn [cache clock requests]. rewrite Hresp, Hok.
      unfold answered. rewrite Hlook. reflexivity. }
  destruct (body resp) as [raw|] eqn:Hbody.
  2:{ unfold getCityAqi, getFromCache_now, Date_now, on_cache, await_fetch,
        await_json.
      unfold bind at 1 2 3.
      destruct (getFromCache (clock w) city (cache w)) as [r c1] eqn:Hlook.
      simpl in Hmiss. subst r. cbn [fst snd]. rewrite Htoken.
      destruct (String.eqb_spec token "") as [|_]; [contradiction|].
      unfold bind at 1. cbn [cache clock requests]. rewrite Hresp, Hok.
      cbn [negb]. unfold bind at 1. rewrite Hbody.
      unfold answered. rewrite Hlook. reflexivity. }
  rewrite (getCityAqi_fetched env city w token resp raw) by assumption.
  unfold bind at 1.
  destruct raw; try reflexivity;
    rewrite property_not_null by discriminate;
    destruct (negb (is_string _ "ok")); try reflexivity;
    destruct (normalizeAqicnResponse _ city); reflexivity.
Qed.

Lemma token_cases env :
  AQICN_API_TOKEN env = None \/ AQICN_API_TOKEN env = Some ""
  \/ exists token, AQICN_API_TOKEN env = Some token /\ token <> "".
Proof.
  destruct (AQICN_API_TOKEN env) as [token|]; [|left; reflexivity].
  destruct (decide (token = "")) as [->|Hne]; [right; left; reflexivity|].
  right. right. exists token. split; [reflexivity|exact Hne].
Qed.

Lemma app_singleton_neq {A} (l : list A) (x : A) : (l ++ [x])%list <> l.
Proof.
  intros H. apply (f_equal (@length A)) in H. rewrite length_app in H.
  simpl in H. lia.
Qed.

End Paths.

(** Runs a lookup down every path of its code. *)
Ltac getCityAqi_paths env city w :=
  let cached := fresh "cached" in
  let Hlook := fresh "Hlook" in
  let token := fresh "token" in
  let Htoken := fresh "Htoken" in
  let Hne := fresh "Hne" in
  destruct (fst (getFromCache (clock w) city (cache w)))
    as [cached|] eqn:Hlook;
  [ rewrite (getCityAqi_cached env city w cached Hlook)
  | destruct (token_cases env) as [Htoken|[Htoken|(token & Htoken & Hne)]];
    [ rewrite (getCityAqi_no_token env city w Hlook (or_introl Htoken))
    | rewrite (getCityAqi_no_token env city w Hlook (or_intror Htoken))
    | rewrite (getCityAqi_after_miss env city w token Hlook Htoken Hne);
      destruct (response (fetch env (feed_url city token))) as [?resp|];
      [ match goal with
        | |- context [ok ?r] => destruct (ok r)
        end; cbn [negb];
        [ destruct (body _) as [[]|];
          try (destruct (negb (is_string _ "ok"));
               [|destruct (normalizeAqicnResponse _ city)])
        | ]
      | ] ] ].

(** X12. Only a record is ever stored: when the promise of
    [getCityAqi] is rejected, whatever the error, or fulfilled with
    [null], the cache is as the lookup of the city left it. *)
Theorem getCityAqi_failure_stores_nothing
    (env : Env) (city : string) (w : World) :
  (fst (getCityAqi env city w) = Return None
   \/ exists e, fst (getCityAqi env city w) = Throw e) ->
  cache (snd (getCityAqi env city w))
  = snd (getFromCache (clock w) city (cache w)).
Proof.
  getCityAqi_paths env city w; cbn [fst snd]; intros Hfail;
    try reflexivity.
  all: destruct Hfail as [Hnull|[e He]]; discriminate.
Qed.

Lemma getCityAqi_failure_stores_nothing_witness :
  let env := {| AQICN_API_TOKEN := Some "demo";
                fetch := fun _ =>
                  {| latency := 8000; response := None |} |} in
  let w := {| cache := [("pune", {| data := bare_record "Pune";
                                   expiresAt := 300000;
                                   lastAccessed := 0 |})];
              clock := 1000; requests := [] |} in
  cache (snd (getCityAqi env "Delhi" w)) = cache w.
Proof.
  intros env w.
  apply (getCityAqi_failure_stores_nothing env "Delhi" w).
  right. exists FetchError. reflexivity.
Defined.

(** X13. A call issues at most one request, never a second one: none
    on a hit or without a token, and on a miss with a token exactly
    one, for the feed of the city as it was passed, whatever the
    network then answers. *)
Theorem getCityAqi_requests (env : Env) (city : string) (w : World) :
  (requests (snd (getCityAqi env city w)) = requests w
   /\ (fst (getFromCache (clock w) city (cache w)) <> None
       \/ AQICN_API_TOKEN env = None \/ AQICN_API_TOKEN env = Some ""))
  \/ (exists token,
        AQICN_API_TOKEN env = Some token /\ token <> ""
        /\ fst (getFromCache (clock w) city (cache w)) = None
        /\ requests (snd (getCityAqi env city w))
           = (requests w ++ [feed_url city token])%list).
Proof.
  destruct (fst (getFromCache (clock w) city (cache w))) as [cached|] eqn:Hlook.
  { left. rewrite (getCityAqi_cached env city w cached Hlook).
    split; [reflexivity|left; discriminate]. }
  destruct (token_cases env) as [Htoken|[Htoken|(token & Htoken & Hne)]].
  - left. rewrite (getCityAqi_no_token env city w Hlook (or_introl Htoken)).
    split; [reflexivity|right; left; exact Htoken].
  - left. rewrite (getCityAqi_no_token env city w Hlook (or_intror Htoken)).
    split; [reflexivity|right; right; exact Htoken].
  - right. exists token. repeat split; try assumption.
    apply getCityAqi_miss_requests; assumption.
Qed.

(** X14. The [hit] flag of an answer tells the truth.  A record
    answered carries [cache.ttlMs = CACHE_TTL_MS] and either
    [cache.hit = true], and then it is the cached record and no request
    was issued, or [cache.hit = false], and then one request was issued
    and the record is the one now stored. *)
Theorem getCityAqi_hit_flag
    (env : Env) (city : string) (w : World) (answer : AqiRecord) :
  fst (getCityAqi env city w) = Return (Some answer) ->
  (Meta.cache (meta answer)
   = Some {| CacheInfo.hit := true; CacheInfo.ttlMs := CACHE_TTL_MS |}
   /\ (exists cached,
         fst (getFromCache (clock w) city (cache w)) = Some cached
         /\ answer = with_cache_info true cached)
   /\ requests (snd (getCityAqi env city w)) = requests w)
  \/
  (Meta.cache (meta answer)
   = Some {| CacheInfo.hit := false; CacheInfo.ttlMs := CACHE_TTL_MS |}
   /\ fst (getFromCache (clock w) city (cache w)) = None
   /\ requests (snd (getCityAqi env city w)) <> requests w
   /\ exists n now,
        answer = with_cache_info false n
        /\ cache (snd (getCityAqi env city w))
           = setInCache now city n
               (snd (getFromCache (clock w) city (cache w)))).
Proof.
  getCityAqi_paths env city w; cbn [fst snd]; intros Hrun;
    try discriminate; injection Hrun as <-.
  { left. split; [reflexivity|]. split; [|reflexivity].
    exists cached. split; reflexivity. }
  all: right; split; [reflexivity|]; split; [reflexivity|];
    split; [apply app_singleton_neq|];
    eexists _, _; split; reflexivity.
Qed.

Lemma getCityAqi_hit_flag_witness :
  let env := provider_of (Some "demo") bare_document in
  let w := {| cache := []; clock := 1000; requests := [] |} in
  exists answer,
    fst (getCityAqi env "Delhi" w) = Return (Some answer)
    /\ Meta.cache (meta answer)
       = Some {| CacheInfo.hit := false; CacheInfo.ttlMs := CACHE_TTL_MS |}.
Proof.
  intros env w. exists (with_cache_info false (bare_record "Delhi")).
  assert (Hrun : fst (getCityAqi env "Delhi" w)
                 = Return (Some (with_cache_info false (bare_record "Delhi"))))
    by reflexivity.
  split; [exact Hrun|].
  destruct (getCityAqi_hit_flag env "Delhi" w _ Hrun)
    as [(Hhit & _)|(Hfresh & _)]; [discriminate Hhit|exact Hfresh].
Defined.

Section FetchThenCached.

Lemma normalizeAqicnResponse_Some_status raw cityQuery n :
  normalizeAqicnResponse raw cityQuery = Some n ->
  raw <> JNull /\ is_string (get raw "status") "ok" = true.
Proof.
  intros Hnorm. destruct (is_string (get raw "status") "ok") eqn:Hstatus.
  - split; [|reflexivity]. intros ->. discriminate Hstatus.
  - unfold normalizeAqicnResponse in Hnorm. rewrite Hstatus in Hnorm.
    cbn [negb] in Hnorm. rewrite orb_true_r in Hnorm. discriminate.
Qed.

Lemma normalizeAqicnResponse_query raw cityQuery n :
  normalizeAqicnResponse raw cityQuery = Some n -> query n = cityQuery.
Proof.
  unfold normalizeAqicnResponse. destruct (_ || _ || _); [discriminate|].
  destruct (get raw "data"); [|discriminate]. intros [= <-]. reflexivity.
Qed.

End FetchThenCached.

(** X15. The first search for a city asks the provider, the next one
    is served from memory.  On a miss in a cache within its capacity,
    with a token and a document that the normaliser accepts, the call
    answers the normalised record with [hit = false]; and a call made
    after it for a spelling of the same key, before [CACHE_TTL_MS] has
    passed since the record was stored, answers the same record with
    [hit = true] without any request, whatever its configuration; the
    [query] of that answer is the city of the first call, as it was
    spelled then. *)
Theorem getCityAqi_then_cached
    (env env2 : Env) (city city2 : string) (w : World) (token : string)
    (resp : Response) (raw : json) (n : AqiRecord) (now2 : Z) :
  Map_wf (cache w) ->
  (Map_size (cache w) <= MAX_CACHE_ENTRIES)%nat ->
  fst (getFromCache (clock w) city (cache w)) = None ->
  AQICN_API_TOKEN env = Some token -> token <> "" ->
  response (fetch env (feed_url city token)) = Some resp ->
  ok resp = true -> body resp = Some raw ->
  normalizeAqicnResponse raw city = Some n ->
  normalizeCityKey city2 = normalizeCityKey city ->
  let w1 := snd (getCityAqi env city w) in
  let w2 := {| cache := cache w1; clock := now2; requests := requests w1 |} in
  now2 < clock w1 + CACHE_TTL_MS ->
  fst (getCityAqi env city w) = Return (Some (with_cache_info false n))
  /\ fst (getCityAqi env2 city2 w2) = Return (Some (with_cache_info true n))
  /\ requests (snd (getCityAqi env2 city2 w2)) = requests w1
  /\ query (with_cache_info true n) = city.
Proof.
  intros Hwf Hsize Hmiss Htoken Hne Hresp Hok Hbody Hnorm Hkey w1 w2.
  destruct (normalizeAqicnResponse_Some_status _ _ _ Hnorm) as [Hnull Hstatus].
  assert (Hrun : getCityAqi env city w
                 = (Return (Some (with_cache_info false n)),
                    stored env city token n w)).
  { rewrite (getCityAqi_after_miss env city w token Hmiss Htoken Hne).
    rewrite Hresp, Hok, Hbody, Hstatus, Hnorm. cbn [negb].
    destruct raw; [congruence|reflexivity..]. }
  unfold w2, w1. rewrite Hrun. cbn [fst snd]. intros Hnow2.
  split; [reflexivity|].
  assert (Hhit : fst (getFromCache now2 city2
                        (cache (stored env city token n w))) = Some n).
  { unfold stored, answered. cbn [cache clock].
    pose proof (getFromCache_wf (clock w) city _ Hwf) as Hwf1.
    pose proof (getFromCache_size (clock w) city (cache w)) as Hsize1.
    set (c1 := snd (getFromCache (clock w) city (cache w))) in *.
    set (t1 := clock w + latency (fetch env (feed_url city token))) in *.
    assert (Hget : Map_get (setInCache t1 city n c1) (normalizeCityKey city2)
                   = Some {| data := n; expiresAt := t1 + CACHE_TTL_MS;
                             lastAccessed := t1 |}).
    { rewrite Hkey. apply setInCache_stored; [exact Hwf1|lia]. }
    rewrite (getFromCache_hit now2 city2 _ _ (setInCache_wf _ _ _ _ Hwf1) Hget)
      by exact Hnow2.
    reflexivity. }
  rewrite (getCityAqi_cached env2 city2
             {| cache := cache (stored env city token n w); clock := now2;
                requests := requests (stored env city token n w) |}
             n Hhit).
  split; [reflexivity|]. split; [reflexivity|].
  exact (normalizeAqicnResponse_query raw city n Hnorm).
Qed.

Lemma getCityAqi_then_cached_witness :
  let env := provider_of (Some "demo") bare_document in
  let offline := {| AQICN_API_TOKEN := None;
                    fetch := fun _ => {| latency := 0; response := None |} |} in
  let w := {| cache := []; clock := 1000; requests := [] |} in
  let w1 := snd (getCityAqi env "Delhi" w) in
  let w2 := {| cache := cache w1; clock := 200000; requests := requests w1 |} in
  fst (getCityAqi offline " DELHI " w2)
  = Return (Some (with_cache_info true (bare_record "Delhi"))).
Proof.
  intros env offline w w1 w2.
  assert (Hwf : Map_wf (cache w)) by constructor.
  assert (Hsize : (Map_size (cache w) <= MAX_CACHE_ENTRIES)%nat)
    by (unfold Map_size, MAX_CACHE_ENTRIES; simpl; lia).
  assert (Hne : "demo" <> "") by discriminate.
  assert (Hnow : 200000 < clock w1 + CACHE_TTL_MS) by reflexivity.
  exact (proj1 (proj2
    (getCityAqi_then_cached env offline "Delhi" " DELHI " w "demo"
       {| status := 200; statusText := "OK"; body := Some bare_document |}
       bare_document (bare_record "Delhi") 200000
       Hwf Hsize eq_refl eq_refl Hne eq_refl eq_refl eq_refl eq_refl eq_refl
       Hnow))).
Defined.

(** X16. How the failures of the provider are told apart, on a miss
    with a token: a request that fails (or times out) rejects with the
    error of [fetch]; a response whose status is outside 200..299
    rejects with the request-failed error carrying the status and its
    text, the body not being read; a body that is not JSON rejects with
    the error of [response.json()]; and a body that is the JSON [null]
    rejects with the [TypeError] of [raw.status]. *)
Theorem getCityAqi_upstream_errors
    (env : Env) (city : string) (w : World) (token : string) :
  fst (getFromCache (clock w) city (cache w)) = None ->
  AQICN_API_TOKEN env = Some token -> token <> "" ->
  (response (fetch env (feed_url city token)) = None ->
     fst (getCityAqi env city w) = Throw FetchError)
  /\ (forall resp,
        response (fetch env (feed_url city token)) = Some resp ->
        status resp < 200 \/ 300 <= status resp ->
        fst (getCityAqi env city w)
        = Throw (RequestFailed (status resp) (statusText resp)))
  /\ (forall resp,
        response (fetch env (feed_url city token)) = Some resp ->
        200 <= status resp < 300 -> body resp = None ->
        fst (getCityAqi env city w) = Throw InvalidJson)
  /\ (forall resp,
        response (fetch env (feed_url city token)) = Some resp ->
        200 <= status resp < 300 -> body resp = Some JNull ->
        fst (getCityAqi env city w) = Throw (TypeError "status")).
Proof.
  intros Hmiss Htoken Hne.
  rewrite (getCityAqi_after_miss env city w token Hmiss Htoken Hne).
  assert (Hok : forall resp, 200 <= status resp < 300 -> ok resp = true).
  { intros resp Hs. unfold ok.
    destruct (Z.leb_spec 200 (status resp)), (Z.ltb_spec (status resp) 300);
      try lia; reflexivity. }
  assert (Hbad : forall resp, status resp < 200 \/ 300 <= status resp ->
                              ok resp = false).
  { intros resp Hs. unfold ok.
    destruct (Z.leb_spec 200 (status resp)), (Z.ltb_spec (status resp) 300);
      try lia; reflexivity. }
  split; [intros ->; reflexivity|]. split; [|split].
  - intros resp -> Hs. rewrite (Hbad resp Hs). reflexivity.
  - intros resp -> Hs Hbody. rewrite (Hok resp Hs), Hbody. reflexivity.
  - intros resp -> Hs Hbody. rewrite (Hok resp Hs), Hbody. reflexivity.
Qed.

Lemma getCityAqi_upstream_errors_witness :
  let env := {| AQICN_API_TOKEN := Some "demo";
                fetch := fun _ =>
                  {| latency := 40;
                     response := Some {| status := 503;
                                         statusText := "Service Unavailable";
                                         body := Some bare_document |} |} |} in
  let w := {| cache := []; clock := 1000; requests := [] |} in
  fst (getCityAqi env "Delhi" w)
  = Throw (RequestFailed 503 "Service Unavailable").
Proof.
  intros env w.
  assert (Hne : "demo" <> "") by discriminate.
  destruct (getCityAqi_upstream_errors env "Delhi" w "demo"
              eq_refl eq_refl Hne) as (_ & Hstatus & _).
  apply (Hstatus {| status := 503; statusText := "Service Unavailable";
                    body := Some bare_document |}); [reflexivity|].
  right. simpl. lia.
Defined.

(** ** The URL of a request *)

Section FeedUrl.

Lemma unreserved_not_percent (c : ascii) :
  unreserved c = true -> Ascii.eqb c "%" = false.
Proof. destruct c as [[] [] [] [] [] [] [] []]; vm_compute; congruence. Qed.

Lemma hex_digits_value (c : ascii) :
  ascii_of_nat (16 * hex_value (hex_digit (nat_of_ascii c / 16))
                + hex_value (hex_digit (nat_of_ascii c mod 16))) = c.
Proof. destruct c as [[] [] [] [] [] [] [] []]; reflexivity. Qed.

Lemma hex_digits_unreserved (c : ascii) :
  unreserved (hex_digit (nat_of_ascii c / 16)) = true
  /\ unreserved (hex_digit (nat_of_ascii c mod 16)) = true.
Proof. destruct c as [[] [] [] [] [] [] [] []]; split; reflexivity. Qed.

(** What is escaped can be read back. *)
Lemma unescape_encodeURIComponent (s : string) :
  unescape (encodeURIComponent s) = s.
Proof.
  induction s as [|c r IH]; [reflexivity|]. cbn [encodeURIComponent].
  destruct (unreserved c) eqn:Hc.
  - cbn [unescape]. rewrite (unreserved_not_percent _ Hc), IH. reflexivity.
  - cbn [unescape]. change (Ascii.eqb "%" "%") with true. cbv iota.
    rewrite hex_digits_value, IH. reflexivity.
Qed.

Lemma encodeURIComponent_inj (s t : string) :
  encodeURIComponent s = encodeURIComponent t -> s = t.
Proof.
  intros H. apply (f_equal unescape) in H.
  rewrite !unescape_encodeURIComponent in H. exact H.
Qed.

(** Only unreserved characters and the percent sign come out of
    [encodeURIComponent]. *)
Lemma encodeURIComponent_chars (s : string) (c : ascii) :
  has_char c (encodeURIComponent s) = true ->
  unreserved c = true \/ c = "%"%char.
Proof.
  induction s as [|d r IH]; cbn [encodeURIComponent has_char];
    [discriminate|].
  destruct (unreserved d) eqn:Hd; cbn [has_char].
  - destruct (Ascii.eqb_spec c d) as [->|_]; [left; exact Hd|exact IH].
  - destruct (hex_digits_unreserved d) as [Hh Hl].
    destruct (Ascii.eqb_spec c "%") as [->|_]; [right; reflexivity|].
    destruct (Ascii.eqb_spec c (hex_digit (nat_of_ascii d / 16)))
      as [->|_]; [left; exact Hh|].
    destruct (Ascii.eqb_spec c (hex_digit (nat_of_ascii d mod 16)))
      as [->|_]; [left; exact Hl|exact IH].
Qed.

Lemma encodeURIComponent_no_slash (s : string) :
  has_char "/" (encodeURIComponent s) = false.
Proof.
  destruct (has_char "/" (encodeURIComponent s)) eqn:H; [|reflexivity].
  apply encodeURIComponent_chars in H as [H|H]; discriminate.
Qed.

Lemma append_inj_l (p x y : string) : p +:+ x = p +:+ y -> x = y.
Proof.
  induction p as [|c p IH]; [auto|].
  change (String c p +:+ ?z) with (String c (p +:+ z)).
  intros [= H]. auto.
Qed.

(** Two strings cut at their first slash are equal piece by piece. *)
Lemma split_at_slash (a b x y : string) :
  has_char "/" a = false -> has_char "/" b = false ->
  a +:+ String "/" x = b +:+ String "/" y -> a = b /\ x = y.
Proof.
  revert b. induction a as [|c a IH]; intros [|d b] Ha Hb;
    change (String ?h ?t +:+ ?z) with (String h (t +:+ z));
    change (EmptyString +:+ ?z) with z; intros H.
  - injection H as ->. split; reflexivity.
  - injection H as <- _. simpl in Hb. discriminate.
  - injection H as -> _. simpl in Ha. discriminate.
  - injection H as -> H. simpl in Ha, Hb.
    apply orb_false_elim in Ha as [_ Ha], Hb as [_ Hb].
    destruct (IH b Ha Hb H) as [-> ->]. split; reflexivity.
Qed.

End FeedUrl.

(** X17. The URL of a request tells the city and the token: two
    requests with the same URL are for the same city, character by
    character, with the same token.  Whatever the city contains, a
    slash or a question mark included, it stays within its segment of
    the path. *)
Theorem feed_url_inj (city token city' token' : string) :
  feed_url city token = feed_url city' token' ->
  city = city' /\ token = token'.
Proof.
  unfold feed_url. intros H.
  apply append_inj_l in H. apply (append_inj_l "/feed/") in H.
  change ("/?token=" +:+ ?z) with (String "/" ("?token=" +:+ z)) in H.
  apply split_at_slash in H as [Hcity Htoken];
    try apply encodeURIComponent_no_slash.
  apply append_inj_l in Htoken.
  split; apply encodeURIComponent_inj; assumption.
Qed.

Lemma feed_url_inj_witness :
  feed_url "a/b?token=x" "demo"
  = "https://api.waqi.info/feed/a%2Fb%3Ftoken%3Dx/?token=demo"
  /\ ("a/b?token=x" = "a/b?token=x" /\ "demo" = "demo").
Proof.
  split; [reflexivity|].
  apply (feed_url_inj "a/b?token=x" "demo" "a/b?token=x" "demo").
  reflexivity.
Defined.

(** ** The route *)

Section Route.
Implicit Types (env : Env) (w : World) (param : option QueryValue).

Lemma query_city_solid param :
  query_city param <> "" -> padding (query_city param) = false.
Proof.
  intros Hne. destruct (padding (query_city param)) eqn:Hpad; [|reflexivity].
  exfalso. apply Hne. apply trim_blank in Hpad. unfold query_city in *.
  rewrite trim_idem in Hpad. exact Hpad.
Qed.

(** An answer always says where it comes from. *)
Lemma getCityAqi_answer_cache_info env city w answer :
  fst (getCityAqi env city w) = Return (Some answer) ->
  exists hit,
    Meta.cache (meta answer)
    = Some {| CacheInfo.hit := hit; CacheInfo.ttlMs := CACHE_TTL_MS |}.
Proof.
  getCityAqi_paths env city w; cbn [fst]; intros Hrun;
    try discriminate; injection Hrun as <-; eexists; reflexivity.
Qed.

Lemma getCityAqi_cache_ok env city w :
  padding city = false -> cache_ok (cache w) ->
  cache_ok (cache (snd (getCityAqi env city w))).
Proof.
  intros Hcity Hok.
  pose proof (getFromCache_ok (clock w) city (cache w) Hok) as Hlooked.
  getCityAqi_paths env city w; cbn [snd]; try exact Hlooked.
  all: apply setInCache_ok; assumption.
Qed.

Lemma api_aqi_cache_ok env param w :
  cache_ok (cache w) -> cache_ok (cache (snd (api_aqi env param w))).
Proof.
  intros Hok. unfold api_aqi.
  destruct (String.eqb_spec (query_city param) "") as [_|Hne]; [exact Hok|].
  pose proof (getCityAqi_cache_ok env _ w (query_city_solid _ Hne) Hok) as H.
  destruct (getCityAqi env (query_city param) w) as [[[r|]|e] w']; exact H.
Qed.

End Route.

(** X18. A request without a city is turned down at the door.  When the
    [city] parameter is missing, or its text is empty or white space
    only, the reply is 400 with the missing-parameter message, and the
    service is not called: the cache, the clock and the requests issued
    are what they were, and nothing is logged. *)
Theorem api_aqi_blank_city
    (env : Env) (param : option QueryValue) (w : World) :
  match param with
  | None => True
  | Some v => padding (query_toString v) = true
  end ->
  api_aqi env param w
  = ({| reply := {| statusCode := 400;
                    jsonBody :=
                      ErrorBody "Missing required query parameter 'city'." |};
        logged := None |}, w).
Proof.
  intros Hblank. unfold api_aqi.
  assert (Hcity : query_city param = "").
  { unfold query_city. destruct param as [v|]; [|reflexivity].
    apply trim_blank in Hblank.
    destruct v as [[|c s]| |]; [reflexivity|exact Hblank..]. }
  rewrite Hcity. reflexivity.
Qed.

Lemma api_aqi_blank_city_witness :
  let env := provider_of (Some "demo") bare_document in
  let w := {| cache := []; clock := 1000; requests := [] |} in
  snd (api_aqi env (Some (QArr [QStr "  "])) w) = w
  /\ statusCode (reply (fst (api_aqi env None w))) = 400.
Proof.
  intros env w. split.
  - rewrite (api_aqi_blank_city env (Some (QArr [QStr "  "])) w);
      reflexivity.
  - rewrite (api_aqi_blank_city env None w I). reflexivity.
Defined.

(** X19. The replies of the route, for a [city] parameter that is
    missing, a string or an array of strings, of ASCII characters.  The
    status is 200, 400, 404 or 502.  It is 200 exactly when the body is
    a record, and the record then carries [meta.cache] with
    [ttlMs = CACHE_TTL_MS]; otherwise the body is an error message.  It
    is 400 exactly when the city, once trimmed, is empty.  A 502 has the
    same body whatever the error, and the error is logged; nothing is
    logged otherwise.  A 404 names the trimmed city. *)
Theorem api_aqi_replies (env : Env) (param : option QueryValue) (w : World) :
  plain_param param = true ->
  let h := fst (api_aqi env param w) in
  (statusCode (reply h) = 200 /\ logged h = None
   /\ query_city param <> ""
   /\ exists record hit,
        jsonBody (reply h) = RecordBody record
        /\ Meta.cache (meta record)
           = Some {| CacheInfo.hit := hit; CacheInfo.ttlMs := CACHE_TTL_MS |})
  \/ (statusCode (reply h) = 400 /\ logged h = None
      /\ query_city param = ""
      /\ jsonBody (reply h)
         = ErrorBody "Missing required query parameter 'city'.")
  \/ (statusCode (reply h) = 404 /\ logged h = None
      /\ query_city param <> ""
      /\ jsonBody (reply h)
         = ErrorBody ("No AQI data found for city '"
                      +:+ query_city param +:+ "'."))
  \/ (statusCode (reply h) = 502 /\ logged h <> None
      /\ query_city param <> ""
      /\ jsonBody (reply h)
         = ErrorBody "Failed to fetch AQI data from upstream provider.").
Proof.
  intros _ h. unfold h, api_aqi.
  destruct (String.eqb_spec (query_city param) "") as [Hblank|Hne].
  { right. left. repeat split. exact Hblank. }
  destruct (getCityAqi env (query_city param) w) as [[[r|]|e] w'] eqn:Hrun.
  - left. split; [reflexivity|]. split; [reflexivity|]. split; [exact Hne|].
    destruct (getCityAqi_answer_cache_info env (query_city param) w r)
      as [hit Hhit]; [rewrite Hrun; reflexivity|].
    exists r, hit. split; [reflexivity|exact Hhit].
  - right. right. left. repeat split. exact Hne.
  - right. right. right. repeat split; [discriminate|exact Hne].
Qed.

Lemma api_aqi_replies_witness :
  let env := provider_of None bare_document in
  let w := {| cache := []; clock := 0; requests := [] |} in
  let h := fst (api_aqi env (Some (QArr [QStr " Delhi"; QStr "Pune "])) w) in
  query_city (Some (QArr [QStr " Delhi"; QStr "Pune "])) = "Delhi,Pune"
  /\ statusCode (reply h) = 502
  /\ logged h = Some MissingToken.
Proof.
  intros env w h. split; [reflexivity|].
  destruct (api_aqi_replies env (Some (QArr [QStr " Delhi"; QStr "Pune "])) w
              eq_refl)
    as [(H200 & _)|[(H400 & _)|[(H404 & _)|(H502 & _)]]].
  - exfalso. vm_compute in H200. discriminate.
  - exfalso. vm_compute in H400. discriminate.
  - exfalso. vm_compute in H404. discriminate.
  - split; [exact H502|reflexivity].
Defined.

(** X20. Whatever is requested, the cache stays in order.  If the cache
    is a [Map] of at most [MAX_CACHE_ENTRIES] entries with none under
    the empty key, so it is after any run of requests to the route,
    whatever their parameters, the configuration and the answers of the
    network; in particular a server that starts with an empty cache
    never holds more than [MAX_CACHE_ENTRIES] entries. *)
Theorem serve_keeps_cache_ok
    (reqs : list (Env * option QueryValue)) (w : World) :
  cache_ok (cache w) ->
  cache_ok (cache (serve reqs w))
  /\ (Map_size (cache (serve reqs w)) <= MAX_CACHE_ENTRIES)%nat.
Proof.
  intros Hok.
  assert (H : cache_ok (cache (serve reqs w))).
  { unfold serve. revert w Hok.
    induction reqs as [|[env param] reqs IH]; intros w Hok; simpl;
      [exact Hok|].
    apply IH, api_aqi_cache_ok, Hok. }
  split; [exact H|]. destruct H as (_ & Hsize & _). exact Hsize.
Qed.

Lemma serve_keeps_cache_ok_witness :
  let env := provider_of (Some "demo") bare_document in
  let reqs := [(env, Some (QStr "Delhi")); (env, Some (QStr " "));
               (env, None); (env, Some (QStr "Pune"))] in
  let w := {| cache := []; clock := 0; requests := [] |} in
  (Map_size (cache (serve reqs w)) <= MAX_CACHE_ENTRIES)%nat.
Proof.
  intros env reqs w. apply (serve_keeps_cache_ok reqs w).
  split; [constructor|split; [|reflexivity]].
  unfold Map_size, MAX_CACHE_ENTRIES. simpl. lia.
Defined.

(** ** The capacity of the cache *)

Section Bound.
Implicit Types (c : Cache) (e : CacheEntry).

Lemma setInCache_ok_key now city d c :
  normalizeCityKey city <> "" -> cache_ok c ->
  cache_ok (setInCache now city d c).
Proof.
  intros Hkey (Hwf & Hsize & Hblank). split; [|split].
  - apply setInCache_wf, Hwf.
  - apply setInCache_size; [|exact Hsize].
    intros Hfirst. apply Map_first_key_get in Hfirst. contradiction.
  - unfold setInCache. apply evictIfNeeded_no_new_key.
    rewrite Map_get_set_other by exact Hkey. exact Hblank.
Qed.

(** While there is room, or when the key is there already, a store is
    a plain [cache.set]. *)
Lemma setInCache_room now city d c :
  (Map_size c < MAX_CACHE_ENTRIES)%nat
  \/ ((Map_size c <= MAX_CACHE_ENTRIES)%nat
      /\ Map_get c (normalizeCityKey city) <> None) ->
  setInCache now city d c
  = Map_set c (normalizeCityKey city)
      {| data := d; expiresAt := now + CACHE_TTL_MS; lastAccessed := now |}.
Proof.
  intros Hroom. unfold setInCache, evictIfNeeded.
  set (key := normalizeCityKey city) in *.
  set (entry := {| data := d; expiresAt := _; lastAccessed := _ |}).
  assert (Hle : (Map_size (Map_set c key entry) <= MAX_CACHE_ENTRIES)%nat).
  { destruct (Map_get c key) as [e0|] eqn:Hget.
    - rewrite (Map_size_set_present _ _ _ _ Hget). lia.
    - rewrite (Map_size_set_absent _ _ _ Hget).
      destruct Hroom as [Hlt|[_ Hin]]; [lia|congruence]. }
  apply Nat.leb_le in Hle. rewrite Hle. reflexivity.
Qed.

(** The keys of the cache after a store under a new key: the key goes
    to the end, and the first key goes when the cache was full. *)
Lemma setInCache_new_keys now city d c :
  cache_ok c ->
  normalizeCityKey city ∉ map fst c ->
  map fst (setInCache now city d c)
  = drop (S (Map_size c) - MAX_CACHE_ENTRIES)
         (map fst c ++ [normalizeCityKey city])%list.
Proof.
  intros (Hwf & Hsize & Hblank) Hnew.
  pose proof (proj2 (Map_get_None _ _) Hnew) as Hget.
  destruct (Nat.eq_dec (Map_size c) MAX_CACHE_ENTRIES) as [Hfull|Hroom].
  - destruct c as [|[k0 e0] rest]; [discriminate|].
    rewrite (setInCache_evicts_oldest now city d k0 e0 rest Hfull Hget).
    + rewrite Hfull, map_app.
      replace (S MAX_CACHE_ENTRIES - MAX_CACHE_ENTRIES)%nat with 1%nat by lia.
      reflexivity.
    + intros ->. simpl in Hblank. discriminate.
  - rewrite setInCache_room by lia.
    rewrite (Map_set_absent _ _ _ Hget), map_app.
    replace (S (Map_size c) - MAX_CACHE_ENTRIES)%nat with 0%nat by lia.
    reflexivity.
Qed.

(** After a run of stores under new, distinct, non-empty keys the cache
    holds the last [MAX_CACHE_ENTRIES] keys, in the order of the
    stores. *)
Lemma store_all_keys stores c :
  cache_ok c ->
  NoDup (map fst c ++ store_keys stores)%list ->
  "" ∉ store_keys stores ->
  cache_ok (store_all stores c)
  /\ map fst (store_all stores c)
     = drop (length (map fst c ++ store_keys stores)%list - MAX_CACHE_ENTRIES)
            (map fst c ++ store_keys stores)%list.
Proof.
  revert c. induction stores as [|[[now city] d] stores IH];
    intros c Hok Hdup Hblank.
  - split; [exact Hok|]. simpl. rewrite app_nil_r.
    destruct Hok as (_ & Hsize & _). unfold Map_size in Hsize.
    rewrite length_map.
    replace (length c - MAX_CACHE_ENTRIES)%nat with 0%nat by lia.
    reflexivity.
  - change (store_keys ((now, city, d) :: stores))
      with (normalizeCityKey city :: store_keys stores) in *.
    change (store_all ((now, city, d) :: stores) c)
      with (store_all stores (setInCache now city d c)).
    set (key := normalizeCityKey city) in *.
    assert (Hkey : key <> "").
    { intros E. apply Hblank. rewrite E. apply list_elem_of_here. }
    assert (Hnew : key ∉ map fst c).
    { apply NoDup_app in Hdup as (_ & Hdisj & _).
      intros Hin. apply (Hdisj _ Hin). apply list_elem_of_here. }
    pose proof (setInCache_ok_key now city d c Hkey Hok) as Hok'.
    pose proof (setInCache_new_keys now city d c Hok Hnew) as Hkeys.
    fold key in Hkeys.
    assert (Hlist : (map fst c ++ key :: store_keys stores
                     = (map fst c ++ [key]) ++ store_keys stores)%list).
    { rewrite <- app_assoc. reflexivity. }
    assert (Hlen : length (map fst c) = Map_size c).
    { unfold Map_size. apply length_map. }
    destruct Hok as (_ & Hsize & _).
    destruct (IH (setInCache now city d c) Hok') as [Hok'' Hrun].
    + rewrite Hkeys. rewrite Hlist in Hdup.
      apply NoDup_app in Hdup as (Hhead & Hdisj & Htail).
      apply NoDup_app. split; [|split; [|exact Htail]].
      * eapply sublist_NoDup; [exact Hhead|apply sublist_drop].
      * intros k Hk. apply Hdisj.
        apply (subseteq_drop _ _ _ Hk).
    + intros Hin. apply Hblank. apply list_elem_of_further, Hin.
    + split; [exact Hok''|].
      rewrite Hrun, Hkeys, Hlist.
      set (K := (map fst c ++ [key])%list).
      assert (HK : length K = S (Map_size c)).
      { unfold K. rewrite length_app, Hlen. simpl. lia. }
      rewrite <- drop_app_le by lia.
      rewrite drop_drop. f_equal.
      rewrite ?length_app, ?length_drop, ?length_app, ?HK.
      unfold MAX_CACHE_ENTRIES in *. lia.
Qed.

End Bound.

(** C4. The cache never holds more than [MAX_CACHE_ENTRIES] entries.
    Take a cache in order (a [Map] of at most [MAX_CACHE_ENTRIES]
    entries, none under the empty key) and a city whose key is not
    empty, as is every city the route passes on.  After
    [setInCache] the cache is in order again, so it holds at most
    [MAX_CACHE_ENTRIES] entries.  While there was room, or when the key
    was there already, nothing is evicted: the store is a plain
    [cache.set].  When the cache was full and the key is new, exactly
    one entry goes, the first of the [Map], which is the oldest by
    insertion or touch; the others stay in their order and the new one
    is last.  And after a run of stores under new and distinct keys the
    cache holds the last [MAX_CACHE_ENTRIES] of all the keys, in order:
    when there are [MAX_CACHE_ENTRIES + 1] keys in all, exactly
    [MAX_CACHE_ENTRIES] entries are left and the oldest key is
    absent. *)
Theorem setInCache_capacity
    (now : Z) (city : string) (d : AqiRecord) (c : Cache) :
  cache_ok c ->
  normalizeCityKey city <> "" ->
  let key := normalizeCityKey city in
  let entry := {| data := d; expiresAt := now + CACHE_TTL_MS;
                  lastAccessed := now |} in
  let c' := setInCache now city d c in
  cache_ok c'
  /\ (Map_size c' <= MAX_CACHE_ENTRIES)%nat
  /\ ((Map_size c < MAX_CACHE_ENTRIES)%nat \/ Map_get c key <> None ->
      c' = Map_set c key entry)
  /\ (Map_size c = MAX_CACHE_ENTRIES -> Map_get c key = None ->
      exists k0 e0 rest,
        c = (k0, e0) :: rest
        /\ c' = (rest ++ [(key, entry)])%list
        /\ Map_size c' = MAX_CACHE_ENTRIES
        /\ Map_get c' k0 = None)
  /\ (forall stores : list (Z * string * AqiRecord),
        let keys := (map fst c ++ store_keys stores)%list in
        NoDup keys ->
        "" ∉ store_keys stores ->
        (Map_size (store_all stores c) <= MAX_CACHE_ENTRIES)%nat
        /\ map fst (store_all stores c)
           = drop (length keys - MAX_CACHE_ENTRIES) keys
        /\ (length keys = S MAX_CACHE_ENTRIES ->
            Map_size (store_all stores c) = MAX_CACHE_ENTRIES
            /\ forall oldest, head keys = Some oldest ->
                 Map_get (store_all stores c) oldest = None)).
Proof.
  intros Hok Hkey key entry c'.
  pose proof (setInCache_ok_key now city d c Hkey Hok) as Hok'.
  split; [exact Hok'|]. split; [apply Hok'|].
  split; [|split].
  - intros Hroom. apply setInCache_room.
    destruct Hok as (_ & Hsize & _). destruct Hroom; [left|right]; auto.
  - intros Hfull Hnew. destruct Hok as (Hwf & _ & Hblank).
    destruct c as [|[k0 e0] rest] eqn:Hc; [discriminate|].
    exists k0, e0, rest. split; [reflexivity|].
    assert (Hk0 : k0 <> "").
    { intros ->. simpl in Hblank. discriminate. }
    assert (Hrun : c' = (rest ++ [(key, entry)])%list).
    { apply setInCache_evicts_oldest; assumption. }
    split; [exact Hrun|]. rewrite Hrun. split.
    + unfold Map_size in *. rewrite length_app. simpl in *. lia.
    + apply Map_get_None. rewrite map_app, elem_of_app.
      apply NoDup_cons in Hwf as [Hfresh _]. intros [Hin|Hin].
      * apply Hfresh, Hin.
      * simpl in Hin. apply list_elem_of_singleton in Hin.
        fold key in Hnew. simpl in Hnew. rewrite <- Hin in Hnew.
        rewrite String.eqb_refl in Hnew. discriminate.
  - intros stores keys Hdup Hblank.
    destruct (store_all_keys stores c Hok Hdup Hblank) as [Hrun Hkeys].
    fold keys in Hkeys. split; [apply Hrun|]. split; [exact Hkeys|].
    intros Hlen.
    assert (Hsize : Map_size (store_all stores c)
                    = length (map fst (store_all stores c))).
    { unfold Map_size. rewrite length_map. reflexivity. }
    rewrite Hkeys, Hlen in Hsize.
    replace (S MAX_CACHE_ENTRIES - MAX_CACHE_ENTRIES)%nat with 1%nat
      in * by lia.
    split.
    + rewrite Hsize, length_drop, Hlen. lia.
    + intros oldest Hhead. apply Map_get_None. rewrite Hkeys.
      destruct keys as [|k keys']; [discriminate|].
      injection Hhead as ->. apply NoDup_cons in Hdup as [Hfresh _].
      rewrite Hlen.
      replace (S MAX_CACHE_ENTRIES - MAX_CACHE_ENTRIES)%nat with 1%nat by lia.
      exact Hfresh.
Qed.

Lemma setInCache_capacity_witness :
  let c' := setInCache 1000 " Pune " (bare_record "Pune")
              (numbered_cache 100) in
  (Map_size c' = 100%nat /\ Map_get c' "0" = None /\ Map_get c' "pune" <> None)
  /\ (Map_size (store_all numbered_stores []) = 100%nat
      /\ Map_get (store_all numbered_stores []) "0" = None).
Proof.
  intros c'.
  assert (Hok : cache_ok (numbered_cache 100)).
  { split; [|split].
    - apply (bool_decide_unpack _). vm_compute. exact I.
    - vm_compute. lia.
    - vm_compute. reflexivity. }
  assert (Hkey : normalizeCityKey " Pune " <> "") by discriminate.
  assert (Hempty : cache_ok []).
  { split; [constructor|split; [|reflexivity]]. vm_compute. lia. }
  split.
  - destruct (setInCache_capacity 1000 " Pune " (bare_record "Pune")
                (numbered_cache 100) Hok Hkey) as (_ & _ & _ & Hfull & _).
    destruct (Hfull eq_refl eq_refl)
      as (k0 & e0 & rest & Hc & Hrun & Hsize & Hgone).
    pose proof (f_equal Map_first_key Hc) as Hfirst.
    vm_compute in Hfirst. injection Hfirst as <-.
    split; [exact Hsize|]. split; [exact Hgone|].
    vm_compute. discriminate.
  - destruct (setInCache_capacity 1000 " Pune " (bare_record "Pune") []
                Hempty Hkey) as (_ & _ & _ & _ & Hruns).
    destruct (Hruns numbered_stores) as (_ & _ & Hlast).
    + apply (bool_decide_unpack _). vm_compute. exact I.
    + apply (bool_decide_unpack _). vm_compute. exact I.
    + destruct (Hlast eq_refl) as [Hsize Hgone].
      split; [exact Hsize|]. apply Hgone. reflexivity.
Defined.
